(** * Mnemosyne: retention of memory blocks, session tracker, listing and
      dimension migration, embedded from the Python sources. *)

From Stdlib Require Import ZArith Lia Ascii String List Sorting.Sorted Permutation.
From stdpp Require Import base option list sorting gmap strings.
From Equations Require Import Equations.
From Equations.Prop Require Import Logic.

Local Open Scope string_scope.

Set Default Proof Using "Type".
Set Warnings "-register-all".

(** ** Python values, as far as the message payloads need them *)

Inductive pyval : Type :=
| PNone
| PBool (b : bool)
| PInt (z : Z)
| PStr (s : string)
| PList (l : list pyval)
| PDict (d : gmap string pyval).

(** [d.get(k, default)] *)
Definition dict_get (d : gmap string pyval) (k : string) (default : pyval) : pyval :=
  match d !! k with
  | Some v => v
  | None => default
  end.

(** [d.get(k)], default [None] *)
Definition dict_get_none (d : gmap string pyval) (k : string) : pyval :=
  dict_get d k PNone.

(** ** The pattern [<Mnemosyne>.*?</Mnemosyne>] with DOTALL *)

Module Regex.

Definition open_tag : string := "<Mnemosyne>".
Definition close_tag : string := "</Mnemosyne>".

(** [strip_prefix p s] is the rest of [s] after the literal [p], if [s]
    starts with [p]. *)
Fixpoint strip_prefix (p s : string) : option string :=
  match p with
  | EmptyString => Some s
  | String a p' =>
      match s with
      | EmptyString => None
      | String b s' => if Ascii.eqb a b then strip_prefix p' s' else None
      end
  end.

(** The lazy [.*?] followed by the closing tag: the shortest body after
    which the closing tag stands; any character (newlines too) may be in
    the body.  Returns the body and the rest after the closing tag. *)
Fixpoint lazy_close (s : string) : option (string * string) :=
  match strip_prefix close_tag s with
  | Some rest => Some (EmptyString, rest)
  | None =>
      match s with
      | EmptyString => None
      | String c s' =>
          match lazy_close s' with
          | Some (body, rest) => Some (String c body, rest)
          | None => None
          end
      end
  end.

(** A match of the whole pattern anchored at the start of [s]: the
    matched text ([match.group(0)]) and the rest of the subject. *)
Definition match_here (s : string) : option (string * string) :=
  match strip_prefix open_tag s with
  | Some r =>
      match lazy_close r with
      | Some (body, rest) => Some (open_tag ++ body ++ close_tag, rest)
      | None => None
      end
  | None => None
  end.

(** What the scanner sees, left to right: a character outside every
    match, or one match. *)
Inductive piece : Type :=
| Chr (c : ascii)
| Blk (b : string).

(** The scan shared by [findall], [sub] and [search]: matches are taken
    leftmost first and do not overlap; the scan resumes right after a
    match.  The pattern never matches the empty string. *)
Equations? scan (s : string) : list piece by wf (String.length s) lt :=
  scan EmptyString := [];
  scan (String c s') with inspect (match_here (String c s')) := {
    | exist _ (Some (blk, rest)) Hm => Blk blk :: scan rest
    | exist _ None _ => Chr c :: scan s' }.
Proof.
  (* what remains after a match is shorter than the subject *)
  assert (forall p s r, strip_prefix p s = Some r ->
            String.length s = (String.length p + String.length r)%nat) as Hprefix.
  { induction p as [|a p IH]; intros [|b s] r H; simpl in H; try done.
    - by inversion H.
    - by inversion H.
    - destruct (Ascii.eqb a b); [|done]. simpl. by rewrite (IH _ _ H). }
  assert (forall s body r, lazy_close s = Some (body, r) ->
            (String.length r < String.length s)%nat) as Hclose.
  { induction s as [|a s IH]; intros body r H; [done|].
    unfold lazy_close in H; fold lazy_close in H.
    destruct (strip_prefix close_tag (String a s)) as [r'|] eqn:E.
    - inversion H; subst. apply Hprefix in E. simpl in *. lia.
    - destruct (lazy_close s) as [[b r']|] eqn:E'; [|done].
      inversion H; subst. specialize (IH _ _ eq_refl). simpl. lia. }
  unfold match_here in Hm.
  destruct (strip_prefix open_tag (String c s')) as [r|] eqn:E; [|done].
  destruct (lazy_close r) as [[b r']|] eqn:E'; [|done].
  inversion Hm; subst. apply Hprefix in E. apply Hclose in E'. simpl in *. lia.
Qed.

(** [compiled_regex.findall(text)]: the matched texts, in order. *)
Definition findall (s : string) : list string :=
  omap (fun p => match p with Blk b => Some b | Chr _ => None end) (scan s).

(** [compiled_regex.sub(repl, text)] with a callable [repl]: what is
    outside the matches is copied, each match is replaced by [repl] of
    its text.  The result is not scanned again. *)
Definition render (repl : string -> string) (p : piece) : string :=
  match p with
  | Chr c => String c EmptyString
  | Blk b => repl b
  end.

Definition join (repl : string -> string) (ps : list piece) : string :=
  foldr (fun p acc => render repl p ++ acc) EmptyString ps.

Definition sub (repl : string -> string) (s : string) : string :=
  join repl (scan s).

(** [compiled_regex.search(text)] as a truth value. *)
Definition search (s : string) : bool :=
  existsb (fun p => match p with Blk _ => true | Chr _ => false end) (scan s).

End Regex.

(** ** core/tools.py *)

Module Tools.
Import Regex.

(** [isinstance(item, dict) and item.get("role") == role] *)
Definition has_role (role : string) (item : pyval) : bool :=
  match item with
  | PDict d =>
      match dict_get_none d "role" with
      | PStr r => String.eqb r role
      | _ => false
      end
  | _ => false
  end.

(** [content_item.get("content", "")] of a dict item *)
Definition content_of (item : pyval) : pyval :=
  match item with
  | PDict d => dict_get d "content" (PStr "")
  | _ => PStr ""
  end.

(** The dict literal [{"role": "user", "content": c}] *)
Definition user_message (c : pyval) : pyval :=
  PDict {[ "role" := PStr "user"; "content" := c ]}.

(** [l[-k:]] for [k > 0] *)
Definition last_slice {A} (k : Z) (l : list A) : list A :=
  drop (length l - Z.to_nat k) l.

(** The branch [contexts_memory_len == 0], one loop iteration *)
Definition strip_item (item : pyval) : pyval :=
  if has_role "user" item then
    match content_of item with
    | PStr original_text => user_message (PStr (sub (fun _ => "") original_text))
    | _ => item
    end
  else item.

(** First loop of the branch [contexts_memory_len > 0]:
    [all_mnemosyne_blocks] *)
Definition blocks_of_item (item : pyval) : list string :=
  if has_role "user" item then
    match content_of item with
    | PStr original_text => findall original_text
    | _ => []
    end
  else [].

Definition all_mnemosyne_blocks (contents : list pyval) : list string :=
  flat_map blocks_of_item contents.

Definition blocks_to_keep (contents : list pyval) (k : Z) : gset string :=
  list_to_set (last_slice k (all_mnemosyne_blocks contents)).

Definition replace_logic (keep : gset string) (block : string) : string :=
  if bool_decide (block ∈ keep) then block else "".

(** Second loop of the branch [contexts_memory_len > 0], one iteration *)
Definition filter_item (keep : gset string) (item : pyval) : pyval :=
  if has_role "user" item then
    match content_of item with
    | PList parts => user_message (PList parts)
    | PStr original_text =>
        if search original_text
        then user_message (PStr (sub (replace_logic keep) original_text))
        else item
    | _ => item
    end
  else item.

Definition remove_mnemosyne_tags (contents : list pyval) (contexts_memory_len : Z)
  : list pyval :=
  if (contexts_memory_len <? 0)%Z then contents
  else if (contexts_memory_len =? 0)%Z then strip_item <$> contents
  else filter_item (blocks_to_keep contents contexts_memory_len) <$> contents.

(** [remove_system_mnemosyne_tags]: the argument is any Python value; what
    is not a string is handed back. *)
Definition remove_system_mnemosyne_tags (text : pyval) (contexts_memory_len : Z) : pyval :=
  match text with
  | PStr t =>
      if (contexts_memory_len <? 0)%Z then text
      else if (contexts_memory_len =? 0)%Z then PStr (sub (fun _ => "") t)
      else
        let all_mnemosyne_blocks := findall t in
        let blocks_to_keep : gset string :=
          list_to_set (last_slice contexts_memory_len all_mnemosyne_blocks) in
        if search t then PStr (sub (replace_logic blocks_to_keep) t) else text
  | _ => text
  end.

(** [remove_system_content]: the argument is any Python value. *)
Definition is_system (msg : pyval) : bool := has_role "system" msg.

(** [[i for i, msg in enumerate(contents) if ...]] *)
Definition system_message_indices (contents : list pyval) : list nat :=
  omap (fun im => if is_system im.2 then Some im.1 else None) (imap pair contents).

Definition remove_system_content (contents : pyval) (contexts_memory_len : Z) : pyval :=
  match contents with
  | PList msgs =>
      if (contexts_memory_len <? 0)%Z then contents
      else
        let idx := system_message_indices msgs in
        let num_system_messages := Z.of_nat (length idx) in
        let indices_to_remove : gset nat :=
          if (contexts_memory_len <? num_system_messages)%Z
          then list_to_set (take (Z.to_nat (num_system_messages - contexts_memory_len)) idx)
          else ∅ in
        PList (omap (fun im => if bool_decide (im.1 ∈ indices_to_remove) then None else Some im.2)
                    (imap pair msgs))
  | _ => PList []
  end.

End Tools.

(** ** memory_manager/context_manager.py *)

Module ContextManager.

(** The platform's message event is opaque here; its origin names it. *)
Inductive AstrMessageEvent : Type :=
| Event (unified_msg_origin : string).

(** The inner dict of a session: the key "last_summary_time" is always
    there, the key "event" only after [init_conv].  Clock readings are
    whole seconds. *)
Record conversation : Type := Conversation {
  event : option AstrMessageEvent;
  last_summary_time : Z
}.

(** [self.conversations]; the lock is held around each method body, so a
    method is one step on this map. *)
Abbreviation conversations := (gmap string conversation).

Definition init_conv (self : conversations) (session_id : string)
    (ev : AstrMessageEvent) (now : Z) : conversations :=
  match self !! session_id with
  | Some _ => self
  | None => <[ session_id := Conversation (Some ev) now ]> self
  end.

Definition add_message (self : conversations) (session_id : string) (now : Z)
  : conversations :=
  match self !! session_id with
  | Some _ => self
  | None => <[ session_id := Conversation None now ]> self
  end.

Definition get_summary_time (self : conversations) (session_id : string) : Z :=
  match self !! session_id with
  | Some c => last_summary_time c
  | None => 0
  end.

Definition update_summary_time (self : conversations) (session_id : string) (now : Z)
  : conversations :=
  match self !! session_id with
  | Some c => <[ session_id := Conversation (event c) now ]> self
  | None => self
  end.

End ContextManager.

(** ** core/commands.py *)

Module Commands.

(** A field of a row the store returns: the key may be absent, or hold
    [None], or hold a value. *)
Inductive field (A : Type) : Type :=
| Missing
| Null
| Val (a : A).
Arguments Missing {A}.
Arguments Null {A}.
Arguments Val {A} a.

(** [row.get(key, default)] *)
Definition get_field {A} (f : field A) (default : A) : field A :=
  match f with
  | Missing => Val default
  | _ => f
  end.

(** A row of the collection.  [create_time] is an INT64 field holding
    Unix seconds. *)
Record record : Type := Record_ {
  memory_id : field Z;
  content : field string;
  create_time : field Z;
  session_id : field string;
  personality_id : field string
}.

(** *** list_records_cmd_impl *)

(** [x.get("create_time", 0) or 0] *)
Definition sort_key (x : record) : Z :=
  match get_field (create_time x) 0%Z with
  | Val t => if (t =? 0)%Z then 0%Z else t
  | _ => 0%Z
  end.

(** [list.sort(key=..., reverse=True)]: descending, and stable (rows with
    equal keys keep their order). *)
Fixpoint insert_desc (x : record) (l : list record) : list record :=
  match l with
  | [] => [x]
  | y :: l' =>
      if (sort_key x <? sort_key y)%Z then y :: insert_desc x l' else x :: y :: l'
  end.

Definition sort_desc (l : list record) : list record := foldr insert_desc [] l.

(** What a collaborator answers to a call: a value, or an exception. *)
Inductive outcome (A : Type) : Type :=
| Ok (a : A)
| Err.
Arguments Ok {A} a.
Arguments Err {A}.

(** What [safe_build_milvus_expression] does: an expression, a
    [ValueError], or another exception. *)
Inductive built : Type :=
| Built (expr : string)
| BuildValueError
| BuildRaised.

(** What [datetime.fromtimestamp(ts).strftime(...)] does on a timestamp: a
    time string; one of the exceptions the formatting loop catches
    ([TypeError], [ValueError], [OSError]), shown as an invalid timestamp;
    or another exception ([OverflowError]). *)
Inductive time_str : Type :=
| TimeStr
| InvalidTime
| TimeRaised.

(** The messages yielded.  [Listing] stands for the text built from the
    number of fetched rows and the rows displayed; [InternalError] is the
    message of the outer [except Exception]. *)
Inductive list_reply : Type :=
| NotConnected
| LimitOutOfRange
| CollectionMissing
| InvalidSessionId
| ExpressionFailed
| QueryFailed
| NoRecords
| CeilingWarning
| Listing (total_fetched : nat) (display_records : list record)
| InternalError.

(** A run of the command: what it yields, and whether an exception leaves
    it. *)
Record listing_run : Type := ListingRun {
  yielded : list list_reply;
  escaped : bool
}.

Section ListRecords.

(** [MAX_TOTAL_FETCH_RECORDS] of core/constants.py *)
Variable MAX_TOTAL_FETCH_RECORDS : nat.

(** The platform's [datetime.fromtimestamp] *)
Variable fromtimestamp : Z -> time_str.

(** The answers of the collaborators: the truth value of the manager, the
    connection state, whether the collection exists, for an event with a
    session id the result of [validate_session_id] and what
    [safe_build_milvus_expression] does (both of core/security_utils.py),
    and the rows of the query ([None] on failure); each call may raise. *)
Record list_env : Type := ListEnv {
  manager : bool;
  connected : outcome bool;
  collection_exists : outcome bool;
  session_id_valid : option (outcome bool);
  expression_built : built;
  fetched : outcome (option (list record))
}.

(** Lines 266-297: one round of the formatting loop; [false] when an
    exception leaves it.  A timestamp that is [None] or missing is not
    converted; a content that is missing is replaced by the default text,
    and [content[:200]] raises [TypeError] on a content that is [None]. *)
Definition format_record (record : record) : bool :=
  match create_time record with
  | Val ts =>
      match fromtimestamp ts with
      | TimeRaised => false
      | _ => true
      end
  | _ => true
  end &&
  match content record with
  | Null => false
  | _ => true
  end.

(** Lines 106-307.  [limit] is an integer, so [int(limit)] returns it. *)
Definition list_records_cmd_impl (env : list_env) (limit : Z) : listing_run :=
  if negb (manager env) then ListingRun [NotConnected] false
  else
    match connected env with
    | Err => ListingRun [] true
    | Ok false => ListingRun [NotConnected] false
    | Ok true =>
        if ((limit <=? 0) || (50 <? limit))%Z then ListingRun [LimitOutOfRange] false
        else
          let listing :=
            match fetched env with
            | Err => [InternalError]
            | Ok None => [QueryFailed]
            | Ok (Some []) => [NoRecords]
            | Ok (Some fetched_records) =>
                let warning :=
                  if bool_decide (MAX_TOTAL_FETCH_RECORDS <= length fetched_records)
                  then [CeilingWarning] else [] in
                let sorted := sort_desc fetched_records in
                let display_records := take (Z.to_nat limit) sorted in
                (warning ++
                 [if forallb format_record display_records
                  then Listing (length fetched_records) display_records
                  else InternalError])%list
            end in
          match collection_exists env with
          | Err => ListingRun [InternalError] false
          | Ok false => ListingRun [CollectionMissing] false
          | Ok true =>
              match session_id_valid env with
              | None => ListingRun listing false
              | Some Err => ListingRun [InternalError] false
              | Some (Ok false) => ListingRun [InvalidSessionId] false
              | Some (Ok true) =>
                  match expression_built env with
                  | Built _ => ListingRun listing false
                  | BuildValueError => ListingRun [ExpressionFailed] false
                  | BuildRaised => ListingRun [InternalError] false
                  end
              end
          end
    end.

End ListRecords.

(** *** init_memory_system_cmd_impl *)

(** A field of the collection schema: its name and [params.get("dim")]. *)
Record schema_field : Type := SchemaField {
  field_name : string;
  field_dim : option Z
}.

(** The row built for the new collection.  The embedding is kept as a
    list of components whose values play no part here. *)
Record insert_row : Type := InsertRow {
  row_personality_id : field string;
  row_session_id : field string;
  row_content : string;
  row_embedding : list Z;
  row_create_time : field Z
}.

(** The calls the command makes on its collaborators, in the order made. *)
Inductive call : Type :=
| IsConnected
| ListCollections
| GetDim
| HasCollection
| GetCollection
| Mkdir
| Query (limit : Z) (offset : nat)
| WriteBackup (old_dim : option Z) (new_dim : Z) (records : list record)
| DropCollection
| SetupCollection (dim : Z)
| GetEmbedding (text : string)
| Insert (row : insert_row)
| Flush.

(** [event.plain_result(...)], by the message it carries. *)
Inductive reply : Type :=
| MilvusNotInitialized
| CannotConnect
| ProviderNotReady
| DimensionUnavailable
| InvalidDimension (d : option Z)
| MismatchNeedsForce (old_dim : option Z) (new_dim : Z)
| MigrationStarted (old_dim : option Z) (new_dim : Z)
| NoDataDir
| BackupDirFailed
| Exporting
| ExportFailed
| BackupSaved (record_count : nat)
| BackupFailed
| DropFailed
| Dropped
| Created (dim : Z)
| Reembedding (record_count : nat)
| Progress (processed record_count success_count fail_count : nat)
| MigrationDone (success_count fail_count : nat) (dim : Z)
| MigrationDoneNoData
| NoMigrationNeeded (dim : Z)
| CreatingCollection
| CollectionReady (dim : Z)
| InitFailed.

(** The answers of the collaborators during one run.  [query n] answers
    the n-th export query, [get_embedding i] and [insert i] answer for the
    record of index [i]. *)
Record world : Type := World {
  milvus_manager : bool;
  is_connected : outcome bool;
  list_collections : outcome unit;
  provider_ready : bool;
  embedding_dim : outcome (option Z);
  get_dim : option (outcome (option Z));
  has_collection : outcome bool;
  get_collection : outcome (option (list schema_field));
  plugin_data_dir : bool;
  mkdir : outcome unit;
  query : nat -> outcome (list record);
  write_backup : outcome unit;
  drop_collection : outcome bool;
  setup_collection : outcome unit;
  get_embedding : nat -> outcome (list Z);
  insert : nat -> outcome bool;
  flush : outcome unit;
  clock : Z
}.

(** The calls made and the replies yielded so far. *)
Record log : Type := Log {
  calls : list call;
  replies : list reply
}.

Definition empty_log : log := Log [] [].

(** How a piece of the generator ends: with a value, by [return], by an
    exception, or not within the given number of export rounds. *)
Inductive res (A : Type) : Type :=
| Value (a : A)
| Returned
| Raised
| OutOfFuel.
Arguments Value {A} a.
Arguments Returned {A}.
Arguments Raised {A}.
Arguments OutOfFuel {A}.

Definition M (A : Type) : Type := log -> res A * log.

Definition ret {A} (a : A) : M A := fun l => (Value a, l).

Definition bind {A B} (m : M A) (k : A -> M B) : M B :=
  fun l =>
    match m l with
    | (Value a, l') => k a l'
    | (Returned, l') => (Returned, l')
    | (Raised, l') => (Raised, l')
    | (OutOfFuel, l') => (OutOfFuel, l')
    end.

Definition yield (r : reply) : M unit :=
  fun l => (Value tt, Log (calls l) (replies l ++ [r])).

Definition return_ {A} : M A := fun l => (Returned, l).

(** A call on a collaborator: it is recorded, then answers or raises. *)
Definition invoke {A} (c : call) (o : outcome A) : M A :=
  fun l =>
    let l' := Log (calls l ++ [c]) (replies l) in
    match o with
    | Ok a => (Value a, l')
    | Err => (Raised, l')
    end.

(** [try: m except Exception: handler] *)
Definition try_ {A} (m : M A) (handler : M A) : M A :=
  fun l =>
    match m l with
    | (Raised, l') => handler l'
    | other => other
    end.

Declare Scope gen_scope.
Delimit Scope gen_scope with gen.
Notation "x <- m ; k" := (bind m (fun x => k))
  (at level 20, m at level 100, k at level 200, only parsing) : gen_scope.
Notation "m ;; k" := (bind m (fun _ => k))
  (at level 100, k at level 200, only parsing, right associativity) : gen_scope.
Local Open Scope gen_scope.

(** [not content] for [record.get("content", "")] *)
Definition content_text (r : record) : option string :=
  match content r with
  | Val text => if String.eqb text "" then None else Some text
  | _ => None
  end.

Definition batch_size : Z := 16384.

(** Lines 428-443: the manager, then a light call to force the
    connection. *)
Definition connect (w : world) : M unit :=
  if negb (milvus_manager w) then yield MilvusNotInitialized ;; return_
  else
    try_ (up <- invoke IsConnected (is_connected w) ;
          if negb up then invoke ListCollections (list_collections w) else ret tt)
         (yield CannotConnect ;; return_).

(** [not current_dim] *)
Definition falsy_dim (d : option Z) : bool :=
  match d with
  | Some z => (z =? 0)%Z
  | None => true
  end.

(** Lines 446-473: the provider and its dimension. *)
Definition probe_dimension (w : world) : M Z :=
  if negb (provider_ready w) then yield ProviderNotReady ;; return_
  else
    current_dim <-
      try_ (d <- (fun l => match embedding_dim w with
                           | Ok d => (Value d, l)
                           | Err => (Raised, l)
                           end) ;
            match get_dim w with
            | Some answer => if falsy_dim d then invoke GetDim answer else ret d
            | None => ret d
            end)
           (yield DimensionUnavailable ;; return_) ;
    match current_dim with
    | Some d => if falsy_dim current_dim || (d <=? 0)%Z
                then yield (InvalidDimension current_dim) ;; return_
                else ret d
    | None => yield (InvalidDimension current_dim) ;; return_
    end.

(** Lines 482-492: [(needs_migration, old_dim)] from the schema. *)
Definition compare_dimension (collection : option (list schema_field)) (current_dim : Z)
  : bool * option Z :=
  match collection with
  | Some fields =>
      match List.find (fun f => String.eqb (field_name f) "embedding") fields with
      | Some f => (negb (bool_decide (field_dim f = Some current_dim)), field_dim f)
      | None => (false, None)
      end
  | None => (false, None)
  end.

(** Lines 543-572: the export loop; [fuel] bounds its rounds, [n] counts
    the queries made.  An answer without rows ([None] or the empty list)
    ends the loop. *)
Fixpoint export_loop (w : world) (fuel n offset : nat) (all_records : list record)
  : M (list record) :=
  match fuel with
  | O => fun l => (OutOfFuel, l)
  | S fuel' =>
      batch_records <- invoke (Query batch_size offset) (query w n) ;
      match batch_records with
      | [] => ret all_records
      | _ =>
          let all_records := (all_records ++ batch_records)%list in
          let offset := offset + length batch_records in
          if (Z.of_nat (length batch_records) <? batch_size)%Z
          then ret all_records
          else export_loop w fuel' (S n) offset all_records
      end
  end.

(** Lines 643-686: one round of the re-embedding loop. *)
Definition reembed_record (w : world) (record_count i : nat) (r : record)
    (counts : nat * nat) : M (nat * nat) :=
  let '(success_count, fail_count) := counts in
  try_
    (match content_text r with
     | None => ret counts
     | Some text =>
         embedding <- invoke (GetEmbedding text) (get_embedding w i) ;
         match embedding with
         | [] => ret (success_count, S fail_count)
         | _ =>
             result <- invoke
                         (Insert (InsertRow (get_field (personality_id r) "")
                                            (get_field (session_id r) "")
                                            text embedding
                                            (get_field (create_time r) (clock w))))
                         (insert w i) ;
             let counts' := if result : bool
                            then (S success_count, fail_count)
                            else (success_count, S fail_count) in
             (if (S i mod 10 =? 0)%nat
              then yield (Progress (S i) record_count (fst counts') (snd counts'))
              else ret tt) ;;
             ret counts'
         end
     end)
    (ret (success_count, S fail_count)).

Fixpoint reembed_loop (w : world) (record_count i : nat) (old_records : list record)
    (counts : nat * nat) : M (nat * nat) :=
  match old_records with
  | [] => ret counts
  | r :: rest =>
      counts' <- reembed_record w record_count i r counts ;
      reembed_loop w record_count (S i) rest counts'
  end.

(** Lines 512-698: the migration proper, once a mismatch is confirmed. *)
Definition migrate (w : world) (fuel : nat) (old_dim : option Z) (current_dim : Z)
  : M unit :=
  yield (MigrationStarted old_dim current_dim) ;;
  if negb (plugin_data_dir w) then yield NoDataDir ;; return_
  else
    try_ (invoke Mkdir (mkdir w)) (yield BackupDirFailed ;; return_) ;;
    yield Exporting ;;
    all_records <- try_ (export_loop w fuel 0 0 []) (yield ExportFailed ;; return_) ;
    let record_count := length all_records in
    try_ (invoke (WriteBackup old_dim current_dim all_records) (write_backup w) ;;
          yield (BackupSaved record_count))
         (yield BackupFailed ;; return_) ;;
    let old_records := all_records in
    dropped <- invoke DropCollection (drop_collection w) ;
    if negb dropped then yield DropFailed ;; return_
    else
      yield Dropped ;;
      invoke (SetupCollection current_dim) (setup_collection w) ;;
      yield (Created current_dim) ;;
      match old_records with
      | [] => yield MigrationDoneNoData
      | _ =>
          yield (Reembedding record_count) ;;
          counts <- reembed_loop w record_count 0 old_records (0, 0) ;
          invoke Flush (flush w) ;;
          yield (MigrationDone (fst counts) (snd counts) current_dim)
      end.

Definition init_memory_system_cmd_impl (w : world) (force : option string) (fuel : nat)
  : M unit :=
  connect w ;;
  try_
    (current_dim <- probe_dimension w ;
     present <- invoke HasCollection (has_collection w) ;
     if present : bool then
       collection <- invoke GetCollection (get_collection w) ;
       let '(needs_migration, old_dim) := compare_dimension collection current_dim in
       if needs_migration : bool then
         if negb (bool_decide (force = Some "--force"))
         then yield (MismatchNeedsForce old_dim current_dim) ;; return_
         else migrate w fuel old_dim current_dim
       else yield (NoMigrationNeeded current_dim)
     else
       yield CreatingCollection ;;
       invoke (SetupCollection current_dim) (setup_collection w) ;;
       yield (CollectionReady current_dim))
    (yield InitFailed).

End Commands.

(** * src/core/commands.py: the two deleting commands *)

Module Admin.
Import Commands.

(** The calls on the store manager and on the event. *)
Inductive call : Type :=
| IsConnected
| GetSenderId
| DropCollection (collection_name : string)
| Delete (collection_name expression : string)
| Flush (collection_name : string).

(** The messages yielded, by the branch that yields them. *)
Inductive reply : Type :=
| NotConnected
| ConfirmDrop (collection_name : string) (is_current_collection : bool)
| DropDone (collection_name : string) (is_current_collection : bool)
| DropRefused (collection_name : string)
| DropError
| SessionIdMissing
| SessionIdInvalid
| ConfirmDelete (session_id collection_name : string)
| ExpressionFailed
| DeleteDone (session_id : string)
| FlushFailed
| DeleteRefused (session_id : string)
| DeleteError.

(** What the collaborators answer: the truth value of the manager, of
    [drop_collection]'s result and of [delete]'s mutation result. *)
Record store : Type := Store {
  milvus_manager : bool;
  is_connected : outcome bool;
  get_sender_id : outcome unit;
  drop_collection : string -> outcome bool;
  delete : string -> string -> outcome bool;
  flush : string -> outcome unit;
  collection_name : string
}.

(** A run of a command: its calls, its replies, and whether an exception
    left it. *)
Record trace : Type := Trace {
  calls : list call;
  replies : list reply;
  raised : bool
}.

(** Lines 48-103. *)
Definition delete_collection_cmd_impl (self : store) (name : string)
    (confirm : option string) : trace :=
  if negb (milvus_manager self) then Trace [] [NotConnected] false
  else
    match is_connected self with
    | Err => Trace [IsConnected] [] true
    | Ok false => Trace [IsConnected] [NotConnected] false
    | Ok true =>
        let is_current_collection := String.eqb name (collection_name self) in
        if negb (bool_decide (confirm = Some "--confirm"))
        then Trace [IsConnected] [ConfirmDrop name is_current_collection] false
        else
          match get_sender_id self with
          | Err => Trace [IsConnected; GetSenderId] [DropError] false
          | Ok _ =>
              let cs := [IsConnected; GetSenderId; DropCollection name] in
              match drop_collection self name with
              | Err => Trace cs [DropError] false
              | Ok true => Trace cs [DropDone name is_current_collection] false
              | Ok false => Trace cs [DropRefused name] false
              end
          end
    end.

(** [str.lstrip(chars)], [str.rstrip(chars)] and [str.strip(chars)] *)
Fixpoint lstrip (chars : list ascii) (s : string) : string :=
  match s with
  | EmptyString => EmptyString
  | String c rest => if existsb (Ascii.eqb c) chars then lstrip chars rest else s
  end.

Fixpoint rstrip (chars : list ascii) (s : string) : string :=
  match s with
  | EmptyString => EmptyString
  | String c rest =>
      match rstrip chars rest with
      | EmptyString =>
          if existsb (Ascii.eqb c) chars then EmptyString else String c EmptyString
      | rest' => String c rest'
      end
  end.

Definition strip_chars (chars : list ascii) (s : string) : string :=
  rstrip chars (lstrip chars s).

(** The two characters of the second [strip]: the double quote and the
    backquote. *)
Definition quote_chars : list ascii := [ascii_of_nat 34; ascii_of_nat 96].

Section DeleteSession.

(** [str.strip()], and the two functions of [security_utils]. *)
Variable strip : string -> string.
Variable validate_session_id : string -> outcome bool.
Variable safe_build_milvus_expression : string -> string -> string -> built.

(** Lines 310-400. *)
Definition delete_session_memory_cmd_impl (self : store) (session_id : string)
    (confirm : option string) : trace :=
  if negb (milvus_manager self) then Trace [] [NotConnected] false
  else
    match is_connected self with
    | Err => Trace [IsConnected] [] true
    | Ok false => Trace [IsConnected] [NotConnected] false
    | Ok true =>
        if String.eqb session_id "" || String.eqb (strip session_id) ""
        then Trace [IsConnected] [SessionIdMissing] false
        else
          let session_id_to_delete := strip_chars quote_chars (strip session_id) in
          match validate_session_id session_id_to_delete with
          | Err => Trace [IsConnected] [] true
          | Ok false => Trace [IsConnected] [SessionIdInvalid] false
          | Ok true =>
              if negb (bool_decide (confirm = Some "--confirm"))
              then Trace [IsConnected]
                         [ConfirmDelete session_id_to_delete (collection_name self)] false
              else
                let collection_name := collection_name self in
                match safe_build_milvus_expression "session_id" session_id_to_delete "==" with
                | BuildValueError => Trace [IsConnected] [ExpressionFailed] false
                | BuildRaised => Trace [IsConnected] [DeleteError] false
                | Built expr =>
                    match get_sender_id self with
                    | Err => Trace [IsConnected; GetSenderId] [DeleteError] false
                    | Ok _ =>
                        let cs := [IsConnected; GetSenderId; Delete collection_name expr] in
                        match delete self collection_name expr with
                        | Err => Trace cs [DeleteError] false
                        | Ok false => Trace cs [DeleteRefused session_id_to_delete] false
                        | Ok true =>
                            let cs := (cs ++ [Flush collection_name])%list in
                            match flush self collection_name with
                            | Ok _ => Trace cs [DeleteDone session_id_to_delete] false
                            | Err => Trace cs [FlushFailed] false
                            end
                        end
                    end
                end
          end
    end.

End DeleteSession.

End Admin.

(** * The wording of the specification, and the cases looked at *)

Module Spec.
Import Tools.

(** The words of the specification: "the K most-recently-appearing
    distinct block texts", the newest first. *)
Definition recent_distinct (k : Z) (blocks : list string) : list string :=
  take (Z.to_nat k) (reverse (remove_dups blocks)).

(** "preserves exactly the K most-recently-appearing distinct block
    texts": the block texts still found in the user messages of the result
    are those. *)
Definition keeps_recent_distinct (contents : list pyval) (k : Z) : Prop :=
  forall b : string,
    b ∈ all_mnemosyne_blocks (remove_mnemosyne_tags contents k) <->
    b ∈ recent_distinct k (all_mnemosyne_blocks contents).

(** The character [c] occurs in [s]. *)
Fixpoint has_char (c : ascii) (s : string) : bool :=
  match s with
  | EmptyString => false
  | String a s' => Ascii.eqb c a || has_char c s'
  end.

(** "zero occurrences of the block delimiter in any user message's
    plain-text content" *)
Definition no_block_left (out : list pyval) : Prop :=
  forall item text,
    item ∈ out -> has_role "user" item = true -> content_of item = PStr text ->
    Regex.findall text = [].

End Spec.

Module RetentionSpec.
Import Tools.

(** The list without its first [m] system messages. *)
Fixpoint drop_systems (m : nat) (msgs : list pyval) : list pyval :=
  match msgs with
  | [] => []
  | x :: rest =>
      if is_system x then
        match m with
        | O => x :: drop_systems O rest
        | S m' => drop_systems m' rest
        end
      else x :: drop_systems m rest
  end.

(** [enumerate] from the index [j] on *)
Definition enumerate_from (j : nat) (l : list pyval) : list (nat * pyval) :=
  imap (fun i x => (j + i, x)) l.

(** The indices of the system messages, counted from [j] *)
Definition indices_from (j : nat) (l : list pyval) : list nat :=
  omap (fun im => if is_system im.2 then Some im.1 else None) (enumerate_from j l).

End RetentionSpec.

Module ListingSpec.
Import Commands.

(** "sorted strictly descending by create_time" *)
Definition strictly_descending (l : list record) : Prop :=
  StronglySorted (fun a b => (sort_key b < sort_key a)%Z) l.

(** Descending, ties allowed *)
Definition descending (l : list record) : Prop :=
  StronglySorted (fun a b => (sort_key b <= sort_key a)%Z) l.

End ListingSpec.

Module MigrationSpec.
Import Commands.

(** "store-mutating calls": drop, create, insert *)
Definition mutating (c : call) : bool :=
  match c with
  | DropCollection | SetupCollection _ | Insert _ => true
  | _ => false
  end.

Definition is_flush (c : call) : bool :=
  match c with
  | Flush => true
  | _ => false
  end.

(** The number of [flush] calls of a run *)
Definition flush_count (cs : list call) : nat := length (List.filter is_flush cs).

(** The exported records the loop does not skip *)
Definition has_content (r : record) : bool :=
  match content_text r with
  | Some _ => true
  | None => false
  end.

(** The calls by the step that makes them *)
Definition prelude_call (c : call) : bool :=
  match c with
  | IsConnected | ListCollections | GetDim | HasCollection | GetCollection => true
  | _ => false
  end.

Definition is_query (c : call) : bool :=
  match c with
  | Query _ _ => true
  | _ => false
  end.

Definition export_call (c : call) : bool :=
  match c with
  | Mkdir | Query _ _ => true
  | _ => false
  end.

Definition reembed_call (c : call) : bool :=
  match c with
  | GetEmbedding _ | Insert _ => true
  | _ => false
  end.

Definition is_progress (r : reply) : bool :=
  match r with
  | Progress _ _ _ _ => true
  | _ => false
  end.

(** An answer that ends the export loop: a short batch, or an exception *)
Definition ends_export (o : outcome (list record)) : bool :=
  match o with
  | Ok batch => (Z.of_nat (length batch) <? batch_size)%Z
  | Err => true
  end.

End MigrationSpec.

Module MigrationShape.
Import Commands MigrationSpec.

(** The export queries for the batches answered: each asks from the
    offset where the batch before it ended. *)
Fixpoint query_calls (offset : nat) (batches : list (list record)) : list call :=
  match batches with
  | [] => []
  | b :: rest => Query batch_size offset :: query_calls (offset + length b) rest
  end.

(** The rows of the [k]-th answer of the store, none when it raises. *)
Definition answer (w : world) (k : nat) : list record :=
  match query w k with
  | Ok b => b
  | Err => []
  end.

(** The rows of the answers [n], ..., [n + k]. *)
Definition fetched (w : world) (n k : nat) : list record :=
  concat (map (fun j => answer w (n + j)) (seq 0 (S k))).

Definition is_embed (c : call) : bool :=
  match c with
  | GetEmbedding _ => true
  | _ => false
  end.

Definition is_insert (c : call) : bool :=
  match c with
  | Insert _ => true
  | _ => false
  end.

Definition is_drop (c : call) : bool :=
  match c with
  | DropCollection => true
  | _ => false
  end.

Definition embed_count (cs : list call) : nat := length (List.filter is_embed cs).
Definition insert_count (cs : list call) : nat := length (List.filter is_insert cs).

(** Where a call of the re-embedding loop comes from: the text embedded,
    and the row inserted, are those of an exported record. *)
Definition row_origin (w : world) (records : list record) (c : call) : Prop :=
  match c with
  | GetEmbedding text => exists r, r ∈ records /\ content_text r = Some text
  | Insert row =>
      exists r, r ∈ records /\
        content_text r = Some (row_content row) /\
        row_personality_id row = get_field (personality_id r) "" /\
        row_session_id row = get_field (session_id r) "" /\
        row_create_time row = get_field (create_time r) (clock w) /\
        row_embedding row <> []
  | _ => True
  end.

(** What the re-embedding loop leaves: its calls and its two counters. *)
Definition loop_facts (w : world) (records : list record)
    (success_count fail_count : nat) (es : list call) : Prop :=
  Forall (fun c => reembed_call c = true) es /\
  Forall (row_origin w records) es /\
  embed_count es = length (List.filter has_content records) /\
  success_count <= insert_count es <= embed_count es /\
  success_count + fail_count = embed_count es.

(** The calls of the migration after the backup write, by the answers of
    the collaborators, with the way the migration ends. *)
Definition migrate_tail (w : world) (d : Z) (records : list record)
    (r : res unit) (rs : list reply) (tail : list call) : Prop :=
  match write_backup w with
  | Err => tail = [] /\ r = Returned
  | Ok _ =>
      match drop_collection w with
      | Err => tail = [DropCollection] /\ r = Raised
      | Ok false => tail = [DropCollection] /\ r = Returned
      | Ok true =>
          match setup_collection w with
          | Err => tail = [DropCollection; SetupCollection d] /\ r = Raised
          | Ok _ =>
              match records with
              | [] => tail = [DropCollection; SetupCollection d] /\ r = Value tt
              | _ =>
                  exists es s f,
                    tail = (DropCollection :: SetupCollection d :: es ++ [Flush])%list /\
                    loop_facts w records s f es /\
                    match flush w with
                    | Ok _ => r = Value tt /\ last rs = Some (MigrationDone s f d)
                    | Err => r = Raised
                    end
              end
          end
      end
  end.

End MigrationShape.

Module Cases.
Import Tools Commands.

(** The scenario of the specification: three blocks in two user
    messages, an assistant message between them. *)
Definition scenario : list pyval :=
  [ user_message (PStr "<Mnemosyne>A</Mnemosyne> hi");
    PDict {[ "role" := PStr "assistant"; "content" := PStr "ok" ]};
    user_message (PStr "<Mnemosyne>B</Mnemosyne> <Mnemosyne>C</Mnemosyne> bye") ].

(** The trailing slice repeats a text: blocks A, B, B with K = 2. *)
Definition repeated_tail : list pyval :=
  [ user_message
      (PStr "<Mnemosyne>A</Mnemosyne><Mnemosyne>B</Mnemosyne><Mnemosyne>B</Mnemosyne>") ].

(** A block inside a broken opening tag: erasing it joins the text
    around it into a new block. *)
Definition nested_tag : list pyval :=
  [ user_message (PStr "<Mnemo<Mnemosyne>A</Mnemosyne>syne>B</Mnemosyne>") ].

(** A named user message: with a match the name is lost, without one it
    stays. *)
Definition named_text (text : string) : pyval :=
  PDict {[ "role" := PStr "user"; "name" := PStr "alice"; "content" := PStr text ]}.

(** A multi-part user message that carries a name. *)
Definition named_multipart : pyval :=
  PDict {[ "role" := PStr "user"; "name" := PStr "alice";
           "content" := PList [ PDict {[ "type" := PStr "text"; "text" := PStr "hi" ]} ] ]}.

(** Two rows written in the same second, and a row without a time. *)
Definition twin_a : record := Record_ (Val 1%Z) (Val "a") (Val 5%Z) (Val "s") (Val "p").
Definition twin_b : record := Record_ (Val 2%Z) (Val "b") (Val 5%Z) (Val "s") (Val "p").
Definition untimed : record := Record_ (Val 3%Z) (Val "c") Missing (Val "s") (Val "p").
Definition null_time : record := Record_ (Val 4%Z) (Val "d") Null (Val "s") (Val "p").

Definition quiet_env (rows : list record) : list_env :=
  ListEnv true (Ok true) (Ok true) None (Built "") (Ok (Some rows)).

(** A platform that converts every timestamp, and one that overflows on
    every timestamp *)
Definition every_time (ts : Z) : time_str := TimeStr.
Definition no_time (ts : Z) : time_str := TimeRaised.

(** A row whose content is [None] *)
Definition hollow : record := Record_ (Val 5%Z) Null (Val 7%Z) (Val "s") (Val "p").

(** A store of two records, the second without text, behind a collection
    of dimension 768; the provider now answers 1024. *)
Definition greeting : record :=
  Record_ (Val 1%Z) (Val "hello") (Val 1700000000%Z) (Val "s1") (Val "p1").
Definition blank : record :=
  Record_ (Val 2%Z) (Val "") (Val 1700000001%Z) (Val "s1") (Val "p1").

Definition resized_world (rows : list record) (backup : outcome unit) : world :=
  World true (Ok true) (Ok tt) true (Ok (Some 1024%Z)) None
        (Ok true) (Ok (Some [SchemaField "embedding" (Some 768%Z)]))
        true (Ok tt) (fun _ => Ok rows) backup (Ok true) (Ok tt)
        (fun _ => Ok [1%Z; 2%Z]) (fun _ => Ok true) (Ok tt) 1700000100%Z.

(** Three system prompts around one user message *)
Definition prompts : list pyval :=
  [ PDict {[ "role" := PStr "system"; "content" := PStr "one" ]};
    PDict {[ "role" := PStr "user"; "content" := PStr "hi" ]};
    PDict {[ "role" := PStr "system"; "content" := PStr "two" ]};
    PDict {[ "role" := PStr "system"; "content" := PStr "three" ]} ].

(** A store that connects on the first call and holds no collection; the
    provider tells its dimension by method. *)
Definition fresh_world : world :=
  World true (Ok false) (Ok tt) true (Ok None) (Some (Ok (Some 1024%Z)))
        (Ok false) (Ok None)
        true (Ok tt) (fun _ => Ok []) (Ok tt) (Ok true) (Ok tt)
        (fun _ => Ok []) (fun _ => Ok true) (Ok tt) 1700000100%Z.

(** A connected store whose configured collection is [memories]; every
    drop, delete and flush succeeds. *)
Definition willing_store : Admin.store :=
  Admin.Store true (Ok true) (Ok tt) (fun _ => Ok true) (fun _ _ => Ok true)
              (fun _ => Ok tt) "memories".

(** A validator that accepts every id, and a builder of [field op "value"]. *)
Definition accept_all (session_id : string) : outcome bool := Ok true.
Definition quoting_builder (field value op : string) : built :=
  Built (field ++ " " ++ op ++ " '" ++ value ++ "'").

Definition same_dimension_world : world :=
  World true (Ok true) (Ok tt) true (Ok (Some 768%Z)) None
        (Ok true) (Ok (Some [SchemaField "memory_id" None; SchemaField "embedding" (Some 768%Z)]))
        true (Ok tt) (fun _ => Ok []) (Ok tt) (Ok true) (Ok tt)
        (fun _ => Ok []) (fun _ => Ok true) (Ok tt) 1700000100%Z.

End Cases.

(** * Facts about the scanner *)

Section RegexFacts.
Import Regex.

Lemma string_app_cons c (a b : string) : String c a ++ b = String c (a ++ b).
Proof. reflexivity. Qed.

Lemma string_app_nil_l (b : string) : "" ++ b = b.
Proof. reflexivity. Qed.

Lemma string_app_assoc (a b c : string) : (a ++ b) ++ c = a ++ (b ++ c).
Proof.
  induction a as [|x a IH]; [done|].
  by rewrite !string_app_cons, IH.
Qed.

Lemma string_app_nil_r (a : string) : a ++ "" = a.
Proof.
  induction a as [|x a IH]; [done|].
  by rewrite string_app_cons, IH.
Qed.

Lemma strip_prefix_app p s r : strip_prefix p s = Some r -> s = p ++ r.
Proof.
  revert s; induction p as [|a p IH]; intros [|b s] H; simpl in H; try done.
  - by inversion H.
  - by inversion H.
  - destruct (Ascii.eqb_spec a b) as [->|]; [|done].
    rewrite string_app_cons. f_equal. by apply IH.
Qed.

Lemma lazy_close_app s body rest :
  lazy_close s = Some (body, rest) -> s = body ++ close_tag ++ rest.
Proof.
  revert body rest; induction s as [|c s IH]; intros body rest H.
  - simpl in H. done.
  - unfold lazy_close in H; fold lazy_close in H.
    destruct (strip_prefix close_tag (String c s)) as [r|] eqn:E.
    + inversion H; subst. by apply strip_prefix_app in E.
    + destruct (lazy_close s) as [[b r]|] eqn:E'; [|done].
      inversion H; subst. rewrite string_app_cons. f_equal. by apply IH.
Qed.

(** A match consumes exactly its own text. *)
Lemma match_here_app s blk rest :
  match_here s = Some (blk, rest) -> s = blk ++ rest.
Proof.
  unfold match_here. intros H.
  destruct (strip_prefix open_tag s) as [r|] eqn:E; [|done].
  destruct (lazy_close r) as [[b r']|] eqn:E'; [|done].
  inversion H; subst.
  apply strip_prefix_app in E. apply lazy_close_app in E'. subst.
  by rewrite !string_app_assoc.
Qed.

(** Every matched text is an opening tag, a body and a closing tag. *)
Lemma match_here_tagged s blk rest :
  match_here s = Some (blk, rest) ->
  exists body, blk = open_tag ++ body ++ close_tag.
Proof.
  unfold match_here. intros H.
  destruct (strip_prefix open_tag s) as [r|]; [|done].
  destruct (lazy_close r) as [[b r']|]; [|done].
  inversion H; subst. by exists b.
Qed.

(** The pieces of a scan, put together again, are the subject: what
    [sub] copies outside the matches is the subject's own text. *)
Lemma join_scan s : join (fun b => b) (scan s) = s.
Proof.
  funelim (scan s); [done| |]; simpl; rewrite H.
  - symmetry. by apply match_here_app.
  - done.
Qed.

Lemma findall_tagged s :
  Forall (fun b => exists body, b = open_tag ++ body ++ close_tag) (findall s).
Proof.
  unfold findall.
  funelim (scan s); simpl; [constructor| |done].
  constructor; [|done]. by eapply match_here_tagged.
Qed.

Lemma search_findall s : search s = false <-> findall s = [].
Proof.
  unfold search, findall. induction (scan s) as [|[c|b] ps IH]; simpl; [done|done|].
  split; done.
Qed.

(** Two replacement functions that agree on the matched texts give the
    same result. *)
Lemma join_ext f g ps :
  (forall b, In (Blk b) ps -> f b = g b) -> join f ps = join g ps.
Proof.
  induction ps as [|[c|b] ps IH]; intros H; simpl; [done| |].
  - rewrite IH; [done|]. intros b Hb. apply H. by right.
  - rewrite (H b); [|by left]. rewrite IH; [done|]. intros b' Hb. apply H. by right.
Qed.

Lemma sub_no_match f s : search s = false -> sub f s = s.
Proof.
  intros H. unfold sub. rewrite <- (join_scan s) at 2.
  apply join_ext. intros b Hb. exfalso.
  assert (search s = true) as E; [|congruence].
  apply existsb_exists. by exists (Blk b).
Qed.

(** A text without the character [<] holds no block. *)
Lemma findall_without_open s : Spec.has_char "<" s = false -> findall s = [].
Proof.
  unfold findall. funelim (scan s); intros Hs; simpl in *; [done| |].
  - apply orb_false_elim in Hs as [Hc _]. clear -Hm Hc.
    unfold match_here in Hm. simpl in Hm. by rewrite Hc in Hm.
  - apply orb_false_elim in Hs as [_ Hs]. by apply H.
Qed.

End RegexFacts.

(** * The retention engine on message sequences *)

Section ToolsFacts.
Import Regex Tools Spec Cases.

Lemma user_message_role c : has_role "user" (user_message c) = true.
Proof.
  unfold has_role, user_message, dict_get_none, dict_get.
  by rewrite lookup_insert_eq.
Qed.

Lemma user_message_content c : content_of (user_message c) = c.
Proof.
  unfold content_of, user_message, dict_get.
  rewrite lookup_insert_ne by done. by rewrite lookup_singleton_eq.
Qed.

Lemma user_message_keys c :
  exists d, user_message c = PDict d /\ dom d = ({[ "role"; "content" ]} : gset string) /\
            d !! "role" = Some (PStr "user") /\ d !! "content" = Some c.
Proof.
  eexists; split; [reflexivity|]. split; [|split].
  - by rewrite dom_insert_L, dom_singleton_L.
  - by rewrite lookup_insert_eq.
  - rewrite lookup_insert_ne by done. by rewrite lookup_singleton_eq.
Qed.

Lemma remove_tags_negative contents K :
  (K < 0)%Z -> remove_mnemosyne_tags contents K = contents.
Proof. intros H. unfold remove_mnemosyne_tags. by rewrite (proj2 (Z.ltb_lt _ _) H). Qed.

Lemma remove_tags_zero contents :
  remove_mnemosyne_tags contents 0 = strip_item <$> contents.
Proof. reflexivity. Qed.

Lemma remove_tags_positive contents K :
  (0 < K)%Z ->
  remove_mnemosyne_tags contents K = filter_item (blocks_to_keep contents K) <$> contents.
Proof.
  intros H. unfold remove_mnemosyne_tags.
  destruct (Z.ltb_spec K 0); [lia|].
  destruct (Z.eqb_spec K 0); [lia|]. done.
Qed.

Lemma remove_tags_length contents K :
  length (remove_mnemosyne_tags contents K) = length contents.
Proof.
  unfold remove_mnemosyne_tags.
  destruct (K <? 0)%Z; [done|].
  destruct (K =? 0)%Z; by rewrite length_fmap.
Qed.

(** Both arms of the string case of the second loop give the same text:
    without a match the substitution would change nothing. *)
Lemma filter_item_text keep item text :
  has_role "user" item = true -> content_of item = PStr text ->
  has_role "user" (filter_item keep item) = true /\
  content_of (filter_item keep item) = PStr (sub (replace_logic keep) text).
Proof.
  intros Hr Hc. unfold filter_item. rewrite Hr, Hc.
  destruct (search text) eqn:E.
  - by rewrite user_message_role, user_message_content.
  - by rewrite sub_no_match.
Qed.

Lemma size_list_to_set_le (l : list string) :
  size (list_to_set l : gset string) <= length l.
Proof.
  induction l as [|x l IH].
  - rewrite list_to_set_nil, size_empty. done.
  - rewrite list_to_set_cons, size_union_alt, size_singleton. simpl.
    assert (size (list_to_set l ∖ {[x]} : gset string) <= size (list_to_set l : gset string)) as Hs.
    { apply subseteq_size. intros y Hy. by apply elem_of_difference in Hy as [Hy _]. }
    lia.
Qed.

Lemma last_slice_split {A} (k : Z) (l : list A) :
  Z.to_nat k < length l ->
  (take (length l - Z.to_nat k) l ++ last_slice k l)%list = l /\
  length (last_slice k l) = Z.to_nat k.
Proof.
  intros H. unfold last_slice. split; [apply take_drop|].
  rewrite length_drop. lia.
Qed.

Example scenario_keep_one :
  content_of <$> remove_mnemosyne_tags scenario 1 =
  [PStr " hi"; PStr "ok"; PStr " <Mnemosyne>C</Mnemosyne> bye"].
Proof. vm_compute. reflexivity. Qed.

(** C1 (amended): for K > 0 and more than K collected blocks, the keep set
    is the set of texts of the last K collected blocks, so it holds between
    one and K texts; in every user message with text content each block
    whose text is in the keep set stays in place, each other block is
    replaced by the empty string, and the text outside the blocks is
    copied. *)
Theorem remove_mnemosyne_tags_keeps_trailing_slice (contents : list pyval) (K : Z) :
  (0 < K)%Z ->
  Z.to_nat K < length (all_mnemosyne_blocks contents) ->
  let blocks := all_mnemosyne_blocks contents in
  let keep := blocks_to_keep contents K in
  (exists older, blocks = (older ++ last_slice K blocks)%list /\
                 length (last_slice K blocks) = Z.to_nat K) /\
  (forall b, b ∈ keep <-> b ∈ last_slice K blocks) /\
  1 <= size keep <= Z.to_nat K /\
  length (remove_mnemosyne_tags contents K) = length contents /\
  forall i item text,
    contents !! i = Some item ->
    has_role "user" item = true ->
    content_of item = PStr text ->
    exists out,
      remove_mnemosyne_tags contents K !! i = Some out /\
      has_role "user" out = true /\
      content_of out =
        PStr (join (fun b => if bool_decide (b ∈ keep) then b else "") (scan text)) /\
      text = join (fun b => b) (scan text).
Proof.
  intros HK Hlen blocks keep.
  destruct (last_slice_split K blocks Hlen) as [Hsplit Hslice].
  repeat split.
  - eexists. split; [symmetry; exact Hsplit|exact Hslice].
  - unfold keep, blocks_to_keep. by rewrite elem_of_list_to_set.
  - unfold keep, blocks_to_keep. by rewrite elem_of_list_to_set.
  - destruct (last_slice K blocks) as [|b l] eqn:E; [simpl in Hslice; lia|].
    unfold keep, blocks_to_keep. fold blocks. rewrite E.
    rewrite list_to_set_cons, size_union_alt, size_singleton. lia.
  - unfold keep, blocks_to_keep. fold blocks. rewrite <- Hslice.
    apply size_list_to_set_le.
  - apply remove_tags_length.
  - intros i item text Hi Hr Hc.
    rewrite remove_tags_positive by done.
    rewrite list_lookup_fmap, Hi. simpl.
    eexists. split; [reflexivity|].
    destruct (filter_item_text keep item text Hr Hc) as [H1 H2].
    split; [exact H1|]. split; [exact H2|]. symmetry. apply join_scan.
Qed.

Lemma remove_mnemosyne_tags_keeps_trailing_slice_witness :
  (0 < 1)%Z /\ Z.to_nat 1 < length (all_mnemosyne_blocks scenario) /\
  size (blocks_to_keep scenario 1) = 1 /\
  exists out, remove_mnemosyne_tags scenario 1 !! 2 = Some out /\
              content_of out = PStr " <Mnemosyne>C</Mnemosyne> bye".
Proof.
  assert (0 < 1)%Z as H1 by lia.
  assert (Z.to_nat 1 < length (all_mnemosyne_blocks scenario)) as H2 by (vm_compute; lia).
  destruct (remove_mnemosyne_tags_keeps_trailing_slice scenario 1 H1 H2)
    as (_ & _ & Hsize & _ & Hmsg).
  split; [exact H1|]. split; [exact H2|]. split; [simpl in Hsize; lia|].
  destruct (Hmsg 2 (user_message (PStr "<Mnemosyne>B</Mnemosyne> <Mnemosyne>C</Mnemosyne> bye"))
              "<Mnemosyne>B</Mnemosyne> <Mnemosyne>C</Mnemosyne> bye"
              eq_refl (user_message_role _) (user_message_content _))
    as (out & Hout & _ & Hc & _).
  exists out. split; [exact Hout|]. rewrite Hc. vm_compute. reflexivity.
Defined.

(** C1 as stated fails: A is one of the two most recent distinct texts and
    is erased. *)
Lemma repeated_tail_drops_recent_text :
  (0 < 2)%Z /\ 2 < length (all_mnemosyne_blocks repeated_tail) /\
  ~ keeps_recent_distinct repeated_tail 2.
Proof.
  split; [lia|]. split; [vm_compute; lia|].
  assert (all_mnemosyne_blocks (remove_mnemosyne_tags repeated_tail 2) =
          ["<Mnemosyne>B</Mnemosyne>"; "<Mnemosyne>B</Mnemosyne>"]) as E1
    by (vm_compute; reflexivity).
  assert (recent_distinct 2 (all_mnemosyne_blocks repeated_tail) =
          ["<Mnemosyne>B</Mnemosyne>"; "<Mnemosyne>A</Mnemosyne>"]) as E2
    by (vm_compute; reflexivity).
  unfold keeps_recent_distinct. rewrite E1, E2. intros H.
  destruct (H "<Mnemosyne>A</Mnemosyne>") as [_ H'].
  assert ("<Mnemosyne>A</Mnemosyne>" ∈ ["<Mnemosyne>B</Mnemosyne>"; "<Mnemosyne>B</Mnemosyne>"]) as Hin.
  { apply H'. apply elem_of_cons. right. apply elem_of_cons. by left. }
  rewrite !elem_of_cons, elem_of_nil in Hin.
  destruct Hin as [Hin|[Hin|[]]]; discriminate Hin.
Qed.

Example nested_tag_erased :
  remove_mnemosyne_tags nested_tag 0 = [ user_message (PStr "<Mnemosyne>B</Mnemosyne>") ].
Proof. vm_compute. reflexivity. Qed.

(** C7 as stated fails: after the single pass a block is left. *)
Lemma nested_tag_leaves_block :
  ~ no_block_left (remove_mnemosyne_tags nested_tag 0).
Proof.
  rewrite nested_tag_erased. intros H.
  specialize (H (user_message (PStr "<Mnemosyne>B</Mnemosyne>")) "<Mnemosyne>B</Mnemosyne>").
  assert (findall "<Mnemosyne>B</Mnemosyne>" = ["<Mnemosyne>B</Mnemosyne>"]) as E
    by (vm_compute; reflexivity).
  rewrite E in H. discriminate H.
  - apply elem_of_cons. by left.
  - apply user_message_role.
  - apply user_message_content.
Qed.

(** C7 (amended): for K = 0 the result has one message per input message;
    a message that is not a user-role dict is the input message itself; a
    user message with text content becomes the user message whose text is
    the input text with every matched block left out, in one left-to-right
    pass that is not repeated on its result; when no [<] is left in that
    text it holds no block. *)
Theorem remove_mnemosyne_tags_zero_single_pass
    (contents : list pyval) (i : nat) (item : pyval) :
  contents !! i = Some item ->
  length (remove_mnemosyne_tags contents 0) = length contents /\
  (has_role "user" item = false ->
     remove_mnemosyne_tags contents 0 !! i = Some item) /\
  (forall text,
     has_role "user" item = true -> content_of item = PStr text ->
     remove_mnemosyne_tags contents 0 !! i =
       Some (user_message (PStr (join (fun _ => "") (scan text)))) /\
     text = join (fun b => b) (scan text) /\
     (findall text = [] -> join (fun _ => "") (scan text) = text) /\
     (has_char "<" (join (fun _ => "") (scan text)) = false ->
      findall (join (fun _ => "") (scan text)) = [])).
Proof.
  intros Hi. split; [apply remove_tags_length|].
  rewrite remove_tags_zero, list_lookup_fmap, Hi. simpl. split.
  - intros Hr. unfold strip_item. by rewrite Hr.
  - intros text Hr Hc. unfold strip_item. rewrite Hr, Hc. split; [done|].
    split; [symmetry; apply join_scan|]. split.
    + intros Hn. apply search_findall in Hn. by apply (sub_no_match (fun _ => "")).
    + apply findall_without_open.
Qed.

Lemma remove_mnemosyne_tags_zero_single_pass_witness :
  remove_mnemosyne_tags scenario 0 !! 1 =
    Some (PDict {[ "role" := PStr "assistant"; "content" := PStr "ok" ]}) /\
  remove_mnemosyne_tags scenario 0 !! 2 = Some (user_message (PStr "  bye")).
Proof.
  split.
  - apply (remove_mnemosyne_tags_zero_single_pass scenario 1
             (PDict {[ "role" := PStr "assistant"; "content" := PStr "ok" ]}) eq_refl).
    vm_compute. reflexivity.
  - destruct (remove_mnemosyne_tags_zero_single_pass scenario 2
                (user_message (PStr "<Mnemosyne>B</Mnemosyne> <Mnemosyne>C</Mnemosyne> bye"))
                eq_refl) as (_ & _ & H).
    destruct (H "<Mnemosyne>B</Mnemosyne> <Mnemosyne>C</Mnemosyne> bye"
                (user_message_role _) (user_message_content _)) as (Hout & _).
    rewrite Hout. vm_compute. reflexivity.
Defined.

(** C9: a user message with text content is replaced by a new dict with
    the keys "role" and "content" only when K = 0, and when K > 0 and the
    text has a match; when K > 0 and the text has no match the input
    message is kept. *)
Theorem text_user_message_rebuilt
    (contents : list pyval) (K : Z) (i : nat) (item : pyval) (text : string) :
  contents !! i = Some item ->
  has_role "user" item = true ->
  content_of item = PStr text ->
  (K = 0%Z \/ ((0 < K)%Z /\ search text = true) ->
     exists d cleaned,
       remove_mnemosyne_tags contents K !! i = Some (PDict d) /\
       dom d = ({[ "role"; "content" ]} : gset string) /\
       d !! "role" = Some (PStr "user") /\
       d !! "content" = Some (PStr cleaned)) /\
  ((0 < K)%Z /\ search text = false ->
     remove_mnemosyne_tags contents K !! i = Some item).
Proof.
  intros Hi Hr Hc. split.
  - intros [->|[HK Hs]].
    + rewrite remove_tags_zero, list_lookup_fmap, Hi. simpl.
      unfold strip_item. rewrite Hr, Hc.
      destruct (user_message_keys (PStr (sub (fun _ => "") text))) as (d & -> & Hd).
      by exists d, (sub (fun _ => "") text).
    + rewrite remove_tags_positive, list_lookup_fmap, Hi by done. simpl.
      unfold filter_item. rewrite Hr, Hc, Hs.
      destruct (user_message_keys
                  (PStr (sub (replace_logic (blocks_to_keep contents K)) text)))
        as (d & -> & Hd).
      by eexists d, _.
  - intros [HK Hs].
    rewrite remove_tags_positive, list_lookup_fmap, Hi by done. simpl.
    unfold filter_item. by rewrite Hr, Hc, Hs.
Qed.

Lemma text_user_message_rebuilt_witness :
  (exists d cleaned,
     remove_mnemosyne_tags [named_text "<Mnemosyne>A</Mnemosyne> hi"] 0 !! 0 = Some (PDict d) /\
     dom d = ({[ "role"; "content" ]} : gset string) /\
     d !! "role" = Some (PStr "user") /\
     d !! "content" = Some (PStr cleaned)) /\
  remove_mnemosyne_tags [named_text "hi"] 1 !! 0 = Some (named_text "hi").
Proof.
  split.
  - apply (text_user_message_rebuilt [named_text "<Mnemosyne>A</Mnemosyne> hi"] 0 0
             (named_text "<Mnemosyne>A</Mnemosyne> hi") "<Mnemosyne>A</Mnemosyne> hi").
    + reflexivity.
    + vm_compute. reflexivity.
    + vm_compute. reflexivity.
    + left. reflexivity.
  - apply (text_user_message_rebuilt [named_text "hi"] 1 0 (named_text "hi") "hi").
    + reflexivity.
    + vm_compute. reflexivity.
    + vm_compute. reflexivity.
    + split; [lia|vm_compute; reflexivity].
Defined.

(** C3, at the failing input: with K = 1 the list branch builds a new
    dict from the role and the content, so the key "name" is gone and the
    output message is not the input message; the content is the same, and
    with K = 0 or K < 0 the message is passed through. *)
Lemma multipart_message_rebuilt :
  remove_mnemosyne_tags [named_multipart] 1 = [ user_message (content_of named_multipart) ] /\
  user_message (content_of named_multipart) <> named_multipart /\
  remove_mnemosyne_tags [named_multipart] 0 = [ named_multipart ] /\
  remove_mnemosyne_tags [named_multipart] (-1) = [ named_multipart ].
Proof.
  split; [vm_compute; reflexivity|]. split; [|split; vm_compute; reflexivity].
  intros H. apply (f_equal (fun v => match v with PDict d => d !! "name" | _ => None end)) in H.
  vm_compute in H. discriminate H.
Qed.

(** What holds of structured content for every K: the content value is
    never changed, and the message itself is passed through unless K > 0
    and the content is a list. *)
Lemma structured_content_kept (contents : list pyval) (K : Z) (i : nat) (item : pyval) :
  contents !! i = Some item ->
  has_role "user" item = true ->
  (forall text, content_of item <> PStr text) ->
  exists out,
    remove_mnemosyne_tags contents K !! i = Some out /\
    has_role "user" out = true /\
    content_of out = content_of item /\
    ((K <= 0)%Z \/ (forall parts, content_of item <> PList parts) -> out = item).
Proof.
  intros Hi Hr Hc. unfold remove_mnemosyne_tags.
  destruct (Z.ltb_spec K 0).
  { exists item. by rewrite Hi. }
  destruct (Z.eqb_spec K 0) as [->|]; rewrite list_lookup_fmap, Hi; simpl.
  - exists (strip_item item). unfold strip_item. rewrite Hr.
    destruct (content_of item) eqn:E; try done. exfalso; by apply (Hc s).
  - exists (filter_item (blocks_to_keep contents K) item).
    unfold filter_item. rewrite Hr.
    destruct (content_of item) eqn:E; try done.
    + exfalso; by apply (Hc s).
    + split; [done|]. rewrite user_message_role, user_message_content.
      split; [done|]. split; [done|]. intros [?|Hl]; [lia|]. exfalso; by apply (Hl l).
Qed.

(** C10: [remove_system_content] answers the empty list to whatever is
    not a list, and gives a list back as it is when the budget is
    negative. *)
Theorem remove_system_content_guards (v : pyval) (msgs : list pyval) (K : Z) :
  ((forall l, v <> PList l) -> remove_system_content v K = PList []) /\
  ((K < 0)%Z -> remove_system_content (PList msgs) K = PList msgs).
Proof.
  split.
  - intros Hv. destruct v; try reflexivity. exfalso; by apply (Hv l).
  - intros HK. unfold remove_system_content. by rewrite (proj2 (Z.ltb_lt _ _) HK).
Qed.

Lemma remove_system_content_guards_witness :
  remove_system_content (PStr "system") 3 = PList [] /\
  remove_system_content (PList scenario) (-1) = PList scenario.
Proof.
  split.
  - apply (proj1 (remove_system_content_guards (PStr "system") [] 3)).
    intros l. discriminate.
  - apply (proj2 (remove_system_content_guards PNone scenario (-1))). lia.
Defined.

End ToolsFacts.

(** * The session tracker *)

Section ContextFacts.
Import ContextManager.

(** C8: for a session the tracker does not hold, [get_summary_time] is 0
    and [update_summary_time] leaves the map as it is. *)
Theorem unknown_session_untouched (self : conversations) (session_id : string) (now : Z) :
  self !! session_id = None ->
  get_summary_time self session_id = 0%Z /\
  (0 <= get_summary_time self session_id)%Z /\
  update_summary_time self session_id now = self.
Proof.
  intros H. unfold get_summary_time, update_summary_time. rewrite H. done.
Qed.

Lemma unknown_session_untouched_witness :
  let self := add_message ∅ "alice" 1700000000 in
  get_summary_time self "bob" = 0%Z /\
  (0 <= get_summary_time self "bob")%Z /\
  update_summary_time self "bob" 1700000060 = self.
Proof.
  apply (unknown_session_untouched (add_message ∅ "alice" 1700000000) "bob" 1700000060).
  vm_compute. reflexivity.
Defined.

(** A known session answers its stamp, and an update replaces it. *)
Lemma known_session_updated (self : conversations) (session_id : string)
    (c : conversation) (now : Z) :
  self !! session_id = Some c ->
  get_summary_time self session_id = last_summary_time c /\
  get_summary_time (update_summary_time self session_id now) session_id = now.
Proof.
  intros H. unfold get_summary_time, update_summary_time. rewrite H.
  by rewrite lookup_insert_eq.
Qed.

End ContextFacts.

(** * Listing the latest records *)

Section ListingFacts.
Import Commands ListingSpec Cases.

Lemma insert_desc_perm x l : insert_desc x l ≡ₚ x :: l.
Proof.
  induction l as [|y l IH]; simpl; [done|].
  destruct (sort_key x <? sort_key y)%Z; [|done].
  rewrite IH. apply Permutation_swap.
Qed.

Lemma sort_desc_perm l : sort_desc l ≡ₚ l.
Proof.
  induction l as [|x l IH]; simpl; [done|].
  by rewrite insert_desc_perm, IH.
Qed.

Lemma insert_desc_descending x l : descending l -> descending (insert_desc x l).
Proof.
  unfold descending. induction l as [|y l IH]; intros H; simpl.
  - repeat constructor.
  - apply StronglySorted_inv in H as [Hl Hy].
    destruct (Z.ltb_spec (sort_key x) (sort_key y)).
    + constructor; [by apply IH|].
      rewrite insert_desc_perm. constructor; [lia|done].
    + constructor; [by constructor|].
      constructor; [lia|].
      eapply Forall_impl; [exact Hy|]. simpl. intros; lia.
Qed.

Lemma sort_desc_descending l : descending (sort_desc l).
Proof.
  induction l as [|x l IH]; simpl; [constructor|].
  by apply insert_desc_descending.
Qed.

(** Stability: the rows of one key come out in the order they came in. *)
Lemma insert_desc_filter (k : Z) x l :
  filter (fun r => sort_key r = k) (insert_desc x l) =
  filter (fun r => sort_key r = k) (x :: l).
Proof.
  induction l as [|y l IH]; simpl; [done|].
  destruct (Z.ltb_spec (sort_key x) (sort_key y)); [|done].
  rewrite !filter_cons in *.
  destruct (decide (sort_key y = k)), (decide (sort_key x = k)); try lia;
    by rewrite IH.
Qed.

Lemma sort_desc_stable (k : Z) l :
  filter (fun r => sort_key r = k) (sort_desc l) = filter (fun r => sort_key r = k) l.
Proof.
  induction l as [|x l IH]; simpl; [done|].
  rewrite insert_desc_filter, !filter_cons. by rewrite IH.
Qed.

Lemma descending_take n l : descending l -> descending (take n l).
Proof.
  unfold descending. revert n; induction l as [|x l IH]; intros [|n] H; simpl;
    try constructor.
  - apply IH. by apply StronglySorted_inv in H as [? _].
  - apply StronglySorted_inv in H as [_ H].
    apply Forall_take. exact H.
Qed.

(** C6 as stated fails: two rows of the same second are listed one after
    the other, which is not strictly descending. *)
Lemma twins_not_strictly_descending :
  2 < 1000 /\
  list_records_cmd_impl 1000 every_time (quiet_env [twin_a; twin_b]) 5 =
    ListingRun [Listing 2 [twin_a; twin_b]] false /\
  ~ strictly_descending [twin_a; twin_b].
Proof.
  split; [lia|]. split; [vm_compute; reflexivity|].
  intros H. apply StronglySorted_inv in H as [_ H].
  apply Forall_inv in H. vm_compute in H. discriminate H.
Qed.

(** A row with a content that is [None] cannot be formatted: the command
    then yields the internal-error message in place of the listing. *)
Example hollow_row_not_listed :
  list_records_cmd_impl 1000 every_time (quiet_env [twin_a; hollow]) 5 =
    ListingRun [InternalError] false.
Proof. vm_compute. reflexivity. Qed.

(** So does a timestamp on which the conversion raises an exception that
    the loop does not catch. *)
Example overflowing_time_not_listed :
  list_records_cmd_impl 1000 no_time (quiet_env [twin_a; untimed]) 5 =
    ListingRun [InternalError] false /\
  list_records_cmd_impl 1000 no_time (quiet_env [untimed; null_time]) 5 =
    ListingRun [Listing 2 [untimed; null_time]] false.
Proof. split; vm_compute; reflexivity. Qed.

(** C6 (amended): with a fetched set below the ceiling (and not empty, the
    limit within 1..50) the command yields one message and no exception
    leaves it: the listing of the first [limit] rows of the fetched rows
    sorted by key in descending order when each of these rows can be
    formatted, and the internal-error message otherwise.  In the sorted
    rows those of equal key are in fetch order; the key is [create_time],
    and 0 when it is missing or [None], so no row with a positive time
    comes after such a row; nothing is lost or invented by the sort. *)
Theorem list_records_sorted_descending
    (ceiling : nat) (fromtimestamp : Z -> time_str) (env : list_env) (limit : Z)
    (rows : list record) :
  manager env = true ->
  connected env = Ok true ->
  collection_exists env = Ok true ->
  session_id_valid env = None \/
    (session_id_valid env = Some (Ok true) /\ exists expr, expression_built env = Built expr) ->
  fetched env = Ok (Some rows) ->
  rows <> [] ->
  length rows < ceiling ->
  (1 <= limit <= 50)%Z ->
  list_records_cmd_impl ceiling fromtimestamp env limit =
    ListingRun
      [if forallb (format_record fromtimestamp) (take (Z.to_nat limit) (sort_desc rows))
       then Listing (length rows) (take (Z.to_nat limit) (sort_desc rows))
       else InternalError]
      false /\
  descending (take (Z.to_nat limit) (sort_desc rows)) /\
  descending (sort_desc rows) /\
  sort_desc rows ≡ₚ rows /\
  (forall k, filter (fun r => sort_key r = k) (sort_desc rows) =
             filter (fun r => sort_key r = k) rows) /\
  (forall r, create_time r = Missing \/ create_time r = Null -> sort_key r = 0%Z) /\
  (forall before r after,
     sort_desc rows = (before ++ r :: after)%list ->
     create_time r = Missing \/ create_time r = Null ->
     Forall (fun later => (sort_key later <= 0)%Z) after).
Proof.
  intros Hm Hc He Hs Hf Hne Hlen Hlim.
  split; [|split; [|split; [|split; [|split; [|split]]]]].
  - unfold list_records_cmd_impl. rewrite Hm, Hc, He, Hf. cbn [negb].
    destruct (Z.leb_spec limit 0); [lia|].
    destruct (Z.ltb_spec 50 limit); [lia|]. cbn [orb].
    destruct rows as [|r rows]; [done|].
    rewrite bool_decide_eq_false_2 by lia. cbn [app].
    by destruct Hs as [->|[-> [expr ->]]].
  - apply descending_take, sort_desc_descending.
  - apply sort_desc_descending.
  - apply sort_desc_perm.
  - intros k. apply sort_desc_stable.
  - intros r [H|H]; unfold sort_key; by rewrite H.
  - intros before r after E Hr.
    pose proof (sort_desc_descending rows) as Hd. unfold descending in Hd.
    rewrite E in Hd. apply StronglySorted_app_1_r in Hd.
    apply StronglySorted_inv in Hd as [_ Hd].
    assert (sort_key r = 0%Z) as <-; [|exact Hd].
    destruct Hr as [H|H]; unfold sort_key; by rewrite H.
Qed.

Lemma list_records_sorted_descending_witness :
  list_records_cmd_impl 1000 every_time (quiet_env [untimed; twin_a; null_time; twin_b]) 3 =
    ListingRun [Listing 4 [twin_a; twin_b; untimed]] false.
Proof.
  destruct (list_records_sorted_descending 1000 every_time
              (quiet_env [untimed; twin_a; null_time; twin_b]) 3
              [untimed; twin_a; null_time; twin_b]) as [H _].
  - reflexivity.
  - reflexivity.
  - reflexivity.
  - left. reflexivity.
  - reflexivity.
  - discriminate.
  - simpl. lia.
  - lia.
  - rewrite H. vm_compute. reflexivity.
Defined.

End ListingFacts.

(** * The dimension migration *)

Section MigrationFacts.
Import Commands MigrationSpec Cases.
Local Open Scope gen_scope.

Lemma reembed_record_spec w n i r s0 f0 l :
  exists s f cs rs,
    reembed_record w n i r (s0, f0) l =
      (Value (s, f), Log (calls l ++ cs) (replies l ++ rs)) /\
    s + f = s0 + f0 + (if has_content r then 1 else 0) /\
    Forall (fun c => reembed_call c = true) cs /\
    Forall (fun r => is_progress r = true) rs.
Proof.
  unfold reembed_record, has_content, try_, bind, invoke, yield, ret.
  generalize (S i mod 10 =? 0)%nat as tick. intros tick.
  destruct l as [cs0 rs0]. simpl.
  destruct (content_text r) as [text|].
  2:{ exists s0, f0, [], []. rewrite !app_nil_r. repeat split; [lia|done|done]. }
  destruct (get_embedding w i) as [[|e es]|].
  - exists s0, (S f0), [GetEmbedding text], []. rewrite !app_nil_r.
    repeat split; [lia|by repeat constructor|done].
  - destruct (insert w i) as [[|]|], tick; simpl; rewrite <- ?app_assoc; simpl.
    + eexists _, _, [_; _], [_]. split; [reflexivity|].
      repeat split; [lia|by repeat constructor|by repeat constructor].
    + eexists _, _, [_; _], []. rewrite app_nil_r. split; [reflexivity|].
      repeat split; [lia|by repeat constructor|done].
    + eexists _, _, [_; _], [_]. split; [reflexivity|].
      repeat split; [lia|by repeat constructor|by repeat constructor].
    + eexists _, _, [_; _], []. rewrite app_nil_r. split; [reflexivity|].
      repeat split; [lia|by repeat constructor|done].
    + eexists _, _, [_; _], []. rewrite app_nil_r. split; [reflexivity|].
      repeat split; [lia|by repeat constructor|done].
    + eexists _, _, [_; _], []. rewrite app_nil_r. split; [reflexivity|].
      repeat split; [lia|by repeat constructor|done].
  - exists s0, (S f0), [GetEmbedding text], []. rewrite !app_nil_r.
    repeat split; [lia|by repeat constructor|done].
Qed.

Lemma reembed_loop_spec w n records : forall i s0 f0 l,
  exists s f cs rs,
    reembed_loop w n i records (s0, f0) l =
      (Value (s, f), Log (calls l ++ cs) (replies l ++ rs)) /\
    s + f = s0 + f0 + length (List.filter has_content records) /\
    Forall (fun c => reembed_call c = true) cs /\
    Forall (fun r => is_progress r = true) rs.
Proof.
  induction records as [|r records IH]; intros i s0 f0 l.
  - exists s0, f0, [], []. destruct l. simpl. rewrite !app_nil_r.
    repeat split; [lia|done|done].
  - destruct (reembed_record_spec w n i r s0 f0 l) as (s1 & f1 & cs1 & rs1 & E1 & Hc1 & Hcs1 & Hrs1).
    destruct (IH (S i) s1 f1 (Log (calls l ++ cs1) (replies l ++ rs1)))
      as (s & f & cs & rs & E & Hc & Hcs & Hrs).
    exists s, f, (cs1 ++ cs)%list, (rs1 ++ rs)%list.
    split; [|split; [|split]].
    + cbn [reembed_loop]. unfold bind at 1. rewrite E1, E. simpl. by rewrite !app_assoc.
    + simpl. destruct (has_content r); simpl; lia.
    + by apply Forall_app.
    + by apply Forall_app.
Qed.

(** The export loop only queries, yields nothing and never returns from
    the generator. *)
Lemma export_loop_spec w fuel : forall n offset acc l r l',
  export_loop w fuel n offset acc l = (r, l') ->
  replies l' = replies l /\
  r <> Returned /\
  exists qs, calls l' = (calls l ++ qs)%list /\ Forall (fun c => is_query c = true) qs.
Proof.
  induction fuel as [|fuel IH]; intros n offset acc l r l' H; simpl in H.
  - inversion H; subst. split; [done|]. split; [done|]. exists []. by rewrite app_nil_r.
  - unfold bind, invoke, ret in H.
    destruct (query w n) as [[|b batch]|]; cbn -[Z.of_nat Z.ltb length] in H.
    + inversion H; subst. simpl. split; [done|]. split; [done|].
      exists [Query batch_size offset]. by repeat constructor.
    + destruct (Z.of_nat (length (b :: batch)) <? batch_size)%Z.
      * inversion H; subst. simpl. split; [done|]. split; [done|].
        exists [Query batch_size offset]. by repeat constructor.
      * apply IH in H as (Hr & Hret & qs & Hq & Hqs). simpl in *.
        split; [done|]. split; [done|].
        exists (Query batch_size offset :: qs). rewrite Hq, <- app_assoc. simpl.
        split; [done|]. by constructor.
    + inversion H; subst. simpl. split; [done|]. split; [done|].
      exists [Query batch_size offset]. by repeat constructor.
Qed.

Lemma export_loop_ends w k : forall fuel n offset acc l,
  k < fuel -> ends_export (query w (n + k)) = true ->
  fst (export_loop w fuel n offset acc l) <> OutOfFuel.
Proof.
  induction k as [|k IH]; intros [|fuel] n offset acc l Hk He; try lia; simpl.
  - rewrite Nat.add_0_r in He. unfold bind, invoke, ret.
    destruct (query w n) as [[|b batch]|]; cbn -[Z.of_nat Z.ltb length] in *; try done.
    rewrite He. done.
  - unfold bind, invoke, ret.
    destruct (query w n) as [[|b batch]|]; cbn -[Z.of_nat Z.ltb length]; try done.
    destruct (Z.of_nat (length (b :: batch)) <? batch_size)%Z; [done|].
    apply IH; [lia|]. by replace (S n + k) with (n + S k) by lia.
Qed.

Lemma query_is_export_call qs :
  Forall (fun c => is_query c = true) qs -> Forall (fun c => export_call c = true) qs.
Proof. intros H. eapply Forall_impl; [exact H|]. by intros []. Qed.

(** The migration with a backup that cannot be written: nothing after the
    write attempt, and no destructive call at all. *)
Lemma migrate_backup_failure w fuel old d l r l' :
  write_backup w = Err ->
  migrate w fuel old d l = (r, l') ->
  exists cs rs,
    calls l' = (calls l ++ cs)%list /\ replies l' = (replies l ++ rs)%list /\
    ((Forall (fun c => export_call c = true) cs) \/
     (exists qs records,
        Forall (fun c => export_call c = true) qs /\
        cs = (qs ++ [WriteBackup old d records])%list /\
        r = Returned /\ last rs = Some BackupFailed)).
Proof.
  intros Hw H. unfold migrate in H.
  unfold bind at 1 in H. unfold yield at 1 in H.
  destruct (plugin_data_dir w); cbn [negb] in H.
  2:{ unfold bind, yield, return_ in H. simpl in H. inversion H; subst; simpl.
      exists [], [MigrationStarted old d; NoDataDir].
      split; [by rewrite app_nil_r|]. split; [by rewrite <- ?app_assoc|]. by left. }
  unfold bind at 1 in H. unfold try_ at 1, invoke at 1 in H.
  destruct (mkdir w); cbn [calls replies] in H.
  2:{ unfold bind, yield, return_ in H. simpl in H. inversion H; subst; simpl.
      exists [Mkdir], [MigrationStarted old d; BackupDirFailed].
      split; [done|]. split; [by rewrite <- ?app_assoc|]. left. by repeat constructor. }
  unfold bind at 1 in H. unfold yield at 1 in H. cbn [calls replies] in H.
  unfold bind at 1 in H. unfold try_ at 1 in H.
  match type of H with context [export_loop w fuel 0 0 [] ?l0] =>
    destruct (export_loop w fuel 0 0 [] l0) as [r1 l1] eqn:He end.
  apply export_loop_spec in He as (Hr1 & Hret & qs & Hq & Hqs).
  apply query_is_export_call in Hqs.
  destruct l1 as [cs1 rs1]. simpl in Hr1, Hq. subst cs1 rs1.
  destruct r1 as [records| | |]; [| done | |].
  - unfold bind at 1, try_ at 1, bind at 1, invoke at 1 in H. rewrite Hw in H.
    unfold bind, yield, return_ in H. simpl in H. inversion H; subst; simpl.
    exists (Mkdir :: qs ++ [WriteBackup old d records])%list,
           [MigrationStarted old d; Exporting; BackupFailed].
    split; [by rewrite <- ?app_assoc|]. split; [by rewrite <- ?app_assoc|].
    right. exists (Mkdir :: qs), records. split; [by constructor|]. done.
  - unfold bind, yield, return_ in H. simpl in H. inversion H; subst; simpl.
    exists (Mkdir :: qs), [MigrationStarted old d; Exporting; ExportFailed].
    split; [by rewrite <- ?app_assoc|]. split; [by rewrite <- ?app_assoc|].
    left. by constructor.
  - inversion H; subst; simpl.
    exists (Mkdir :: qs), [MigrationStarted old d; Exporting].
    split; [by rewrite <- ?app_assoc|]. split; [by rewrite <- ?app_assoc|].
    left. by constructor.
Qed.

(** The migration when backup, drop and creation succeed: it runs to the
    end of the re-embedding loop and to the one [flush] after it. *)
Lemma migrate_report w fuel old d l r l' :
  write_backup w = Ok tt ->
  drop_collection w = Ok true ->
  setup_collection w = Ok tt ->
  migrate w fuel old d l = (r, l') ->
  exists cs rs,
    calls l' = (calls l ++ cs)%list /\ replies l' = (replies l ++ rs)%list /\
    ((Forall (fun c => export_call c = true) cs) \/
     (exists qs records es s f,
        Forall (fun c => export_call c = true) qs /\
        Forall (fun c => reembed_call c = true) es /\
        s + f = length (List.filter has_content records) /\
        match records with
        | [] =>
            cs = (qs ++ [WriteBackup old d records; DropCollection; SetupCollection d])%list /\
            r = Value tt /\ last rs = Some MigrationDoneNoData
        | _ =>
            cs = (qs ++ [WriteBackup old d records; DropCollection; SetupCollection d]
                     ++ es ++ [Flush])%list /\
            ((flush w = Ok tt /\ r = Value tt /\ last rs = Some (MigrationDone s f d)) \/
             (flush w = Err /\ r = Raised))
        end)).
Proof.
  intros Hw Hd Hs H. unfold migrate in H.
  unfold bind at 1 in H. unfold yield at 1 in H.
  destruct (plugin_data_dir w); cbn [negb] in H.
  2:{ unfold bind, yield, return_ in H. simpl in H. inversion H; subst; simpl.
      exists [], [MigrationStarted old d; NoDataDir].
      split; [by rewrite app_nil_r|]. split; [by rewrite <- ?app_assoc|]. by left. }
  unfold bind at 1 in H. unfold try_ at 1, invoke at 1 in H.
  destruct (mkdir w); cbn [calls replies] in H.
  2:{ unfold bind, yield, return_ in H. simpl in H. inversion H; subst; simpl.
      exists [Mkdir], [MigrationStarted old d; BackupDirFailed].
      split; [done|]. split; [by rewrite <- ?app_assoc|]. left. by repeat constructor. }
  unfold bind at 1 in H. unfold yield at 1 in H. cbn [calls replies] in H.
  unfold bind at 1 in H. unfold try_ at 1 in H.
  match type of H with context [export_loop w fuel 0 0 [] ?l0] =>
    destruct (export_loop w fuel 0 0 [] l0) as [r1 l1] eqn:He end.
  apply export_loop_spec in He as (Hr1 & Hret & qs & Hq & Hqs).
  apply query_is_export_call in Hqs.
  destruct l1 as [cs1 rs1]. simpl in Hr1, Hq. subst cs1 rs1.
  destruct r1 as [records| | |]; [| done | |].
  - unfold bind at 1, try_ at 1, bind at 1, invoke at 1 in H. rewrite Hw in H.
    unfold yield at 1 in H. cbn [calls replies] in H.
    unfold bind at 1, invoke at 1 in H. rewrite Hd in H. cbn [calls replies negb] in H.
    unfold bind at 1, yield at 1 in H. cbn [calls replies] in H.
    unfold bind at 1, invoke at 1 in H. rewrite Hs in H. cbn [calls replies] in H.
    unfold bind at 1, yield at 1 in H. cbn [calls replies] in H.
    destruct records as [|r0 records].
    + unfold yield in H. inversion H; subst; simpl.
      eexists _, [_; _; _; _; _; _]. split; [|split].
      2:{ rewrite <- ?app_assoc. reflexivity. }
      2:{ right. exists (Mkdir :: qs), [], [], 0, 0.
          split; [by constructor|]. split; [done|]. split; [done|]. simpl.
          split; [reflexivity|]. done. }
      by rewrite <- ?app_assoc.
    + unfold bind at 1, yield at 1 in H. cbn [calls replies] in H.
      unfold bind at 1 in H.
      match type of H with context [reembed_loop w ?n 0 ?rs (0, 0) ?l0] =>
        destruct (reembed_loop_spec w n rs 0 0 0 l0) as (s & f & es & ps & E & Hc & Hes & Hps)
      end.
      rewrite E in H. cbn [calls replies] in H.
      unfold bind at 1, invoke at 1 in H.
      destruct (flush w) as [[]|] eqn:Hf; cbn [calls replies fst snd] in H.
      * unfold yield in H. inversion H; subst; simpl.
        eexists _, (_ :: _ :: _ :: _ :: _ :: _ :: ps ++ [MigrationDone s f d])%list.
        split; [|split].
        2:{ rewrite <- ?app_assoc. reflexivity. }
        2:{ right. exists (Mkdir :: qs), (r0 :: records), es, s, f.
            split; [by constructor|]. split; [done|]. split; [simpl in *; lia|].
            split; [reflexivity|]. left. split; [done|]. split; [done|].
            rewrite !last_cons. by rewrite last_snoc. }
        by rewrite <- ?app_assoc.
      * inversion H; subst; simpl.
        eexists _, (_ :: _ :: _ :: _ :: _ :: _ :: ps)%list.
        split; [|split].
        2:{ rewrite <- ?app_assoc. reflexivity. }
        2:{ right. exists (Mkdir :: qs), (r0 :: records), es, s, f.
            split; [by constructor|]. split; [done|]. split; [simpl in *; lia|].
            split; [reflexivity|]. right. done. }
        by rewrite <- ?app_assoc.
  - unfold bind, yield, return_ in H. simpl in H. inversion H; subst; simpl.
    exists (Mkdir :: qs), [MigrationStarted old d; Exporting; ExportFailed].
    split; [by rewrite <- ?app_assoc|]. split; [by rewrite <- ?app_assoc|].
    left. by constructor.
  - inversion H; subst; simpl.
    exists (Mkdir :: qs), [MigrationStarted old d; Exporting].
    split; [by rewrite <- ?app_assoc|]. split; [by rewrite <- ?app_assoc|].
    left. by constructor.
Qed.

(** The connection step makes prelude calls only and handles its own
    exceptions. *)
Lemma connect_spec w l r l' :
  connect w l = (r, l') ->
  (r = Value tt \/ r = Returned) /\
  exists cs, calls l' = (calls l ++ cs)%list /\ Forall (fun c => prelude_call c = true) cs.
Proof.
  intros H. unfold connect, bind, try_, invoke, yield, return_, ret in H.
  destruct (milvus_manager w); simpl in H.
  2:{ inversion H; subst; simpl. split; [by right|]. exists []. by rewrite app_nil_r. }
  destruct (is_connected w) as [[|]|]; simpl in H.
  - inversion H; subst; simpl. split; [by left|]. exists [IsConnected]. by repeat constructor.
  - destruct (list_collections w) as [[]|]; inversion H; subst; simpl;
      (split; [by auto|]); exists [IsConnected; ListCollections];
      (split; [by rewrite <- ?app_assoc|by repeat constructor]).
  - inversion H; subst; simpl. split; [by right|]. exists [IsConnected]. by repeat constructor.
Qed.

(** So does the probe of the dimension; what it answers is positive. *)
Lemma probe_dimension_spec w l r l' :
  probe_dimension w l = (r, l') ->
  ((exists d, r = Value d /\ (0 < d)%Z /\ replies l' = replies l) \/ r = Returned) /\
  exists cs, calls l' = (calls l ++ cs)%list /\ Forall (fun c => prelude_call c = true) cs.
Proof.
  intros H. unfold probe_dimension, bind, try_, invoke, yield, return_, ret in H.
  destruct (provider_ready w); simpl in H.
  2:{ inversion H; subst; simpl. split; [by right|]. exists []. by rewrite app_nil_r. }
  assert (forall (cd : option Z) l1 cs,
            calls l1 = (calls l ++ cs)%list -> replies l1 = replies l ->
            Forall (fun c => prelude_call c = true) cs ->
            match cd with
            | Some d => if falsy_dim cd || (d <=? 0)%Z
                        then (fun l0 => (Returned,
                                Log (calls l0) (replies l0 ++ [InvalidDimension cd])))
                        else (fun l0 => (Value d, l0))
            | None => (fun l0 => (Returned,
                         Log (calls l0) (replies l0 ++ [InvalidDimension cd])))
            end l1 = (r, l') ->
            ((exists d, r = Value d /\ (0 < d)%Z /\ replies l' = replies l) \/ r = Returned) /\
            exists cs, calls l' = (calls l ++ cs)%list /\
                       Forall (fun c => prelude_call c = true) cs) as Hvalid.
  { intros [d|] l1 cs Hcs Hrs Hpre E.
    - destruct (falsy_dim (Some d) || (d <=? 0)%Z) eqn:Ev; inversion E; subst; simpl.
      + split; [by right|]. by exists cs.
      + apply orb_false_elim in Ev as [_ Ev]. apply Z.leb_gt in Ev.
        split; [left; by exists d|]. by exists cs.
    - inversion E; subst; simpl. split; [by right|]. by exists cs. }
  destruct (embedding_dim w) as [d0|]; simpl in H.
  2:{ inversion H; subst; simpl. split; [by right|]. exists []. by rewrite app_nil_r. }
  destruct (get_dim w) as [answer|]; simpl in H.
  - destruct (falsy_dim d0); simpl in H.
    + destruct answer as [d1|]; simpl in H.
      * eapply (Hvalid d1 _ [GetDim]); [| |by repeat constructor|exact H]; done.
      * inversion H; subst; simpl. split; [by right|]. exists [GetDim]. by repeat constructor.
    + eapply (Hvalid d0 _ []); [| |done|exact H]; [by rewrite app_nil_r|done].
  - eapply (Hvalid d0 _ []); [| |done|exact H]; [by rewrite app_nil_r|done].
Qed.

(** The runs of the command: it ends in the prelude, or it creates the
    missing collection, or it enters the migration, whose exception the
    outer handler turns into a last reply. *)
Lemma run_cases w force fuel r lg :
  init_memory_system_cmd_impl w force fuel empty_log = (r, lg) ->
  Forall (fun c => prelude_call c = true) (calls lg) \/
  (exists pre d,
     Forall (fun c => prelude_call c = true) pre /\
     has_collection w = Ok false /\
     calls lg = (pre ++ [SetupCollection d])%list) \/
  (exists l0 old d r1 l1,
     Forall (fun c => prelude_call c = true) (calls l0) /\
     has_collection w = Ok true /\
     migrate w fuel old d l0 = (r1, l1) /\
     calls lg = calls l1 /\
     ((r1 = Raised /\ r = Value tt /\ replies lg = (replies l1 ++ [InitFailed])%list) \/
      (r1 <> Raised /\ r = r1 /\ replies lg = replies l1))).
Proof.
  intros H. unfold init_memory_system_cmd_impl in H.
  unfold bind at 1 in H.
  destruct (connect w empty_log) as [rc lc] eqn:Hc.
  apply connect_spec in Hc as [Hrc (cs0 & Hcs0 & Hpre0)].
  assert (Forall (fun c => prelude_call c = true) (calls lc)) as Hlc.
  { rewrite Hcs0. by apply Forall_app. }
  clear cs0 Hcs0 Hpre0.
  destruct Hrc as [->| ->].
  2:{ inversion H; subst. by left. }
  unfold try_ at 1, bind at 1 in H.
  destruct (probe_dimension w lc) as [rp lp] eqn:Hp.
  apply probe_dimension_spec in Hp as [Hrp (cs1 & Hcs1 & Hpre1)].
  assert (Forall (fun c => prelude_call c = true) (calls lp)) as Hlp.
  { rewrite Hcs1. by apply Forall_app. }
  clear cs1 Hcs1 Hpre1.
  destruct Hrp as [(d & -> & Hd & _)| ->].
  2:{ inversion H; subst. by left. }
  unfold bind at 1, invoke at 1 in H.
  destruct (has_collection w) as [[|]|] eqn:Hh; cbn [calls replies] in H.
  - unfold bind at 1, invoke at 1 in H.
    destruct (get_collection w) as [collection|]; cbn [calls replies] in H.
    2:{ unfold yield in H. inversion H; subst; simpl. left.
        rewrite <- app_assoc. apply Forall_app. split; [done|]. by repeat constructor. }
    destruct (compare_dimension collection d) as [[|] old].
    + destruct (bool_decide (force = Some "--force")); cbn [negb] in H.
      * match type of H with context [migrate w fuel old d ?l0] =>
          destruct (migrate w fuel old d l0) as [r1 l1] eqn:Hm;
          right; right; exists l0, old, d, r1, l1
        end.
        split.
        { simpl. rewrite <- app_assoc. apply Forall_app. split; [done|]. by repeat constructor. }
        split; [done|]. split; [done|].
        destruct r1; unfold yield in H; inversion H; subst; simpl; split; try done;
          first [ by left | by right ].
      * unfold bind, yield, return_ in H. simpl in H. inversion H; subst; simpl. left.
        rewrite <- app_assoc. apply Forall_app. split; [done|]. by repeat constructor.
    + unfold yield in H. inversion H; subst; simpl. left.
      rewrite <- app_assoc. apply Forall_app. split; [done|]. by repeat constructor.
  - unfold bind at 1, yield at 1 in H. cbn [calls replies] in H.
    unfold bind at 1, invoke at 1 in H.
    right; left. exists (calls lp ++ [HasCollection])%list, d.
    split; [apply Forall_app; split; [done|by repeat constructor]|]. split; [done|].
    destruct (setup_collection w) as [[]|]; unfold yield in H; inversion H; subst; simpl; done.
  - unfold yield in H. inversion H; subst; simpl. left.
    apply Forall_app. split; [done|]. by repeat constructor.
Qed.

Lemma Forall_true_elem {A} (P : A -> bool) (l : list A) (x : A) :
  Forall (fun c => P c = true) l -> x ∈ l -> P x = true.
Proof. intros H Hx. by apply (proj1 (Forall_forall _ _) H). Qed.

Lemma flush_count_app l1 l2 : flush_count (l1 ++ l2) = flush_count l1 + flush_count l2.
Proof. unfold flush_count. by rewrite List.filter_app, length_app. Qed.

Lemma flush_count_none (P : call -> bool) l :
  (forall c, P c = true -> is_flush c = false) ->
  Forall (fun c => P c = true) l -> flush_count l = 0.
Proof.
  intros HP H. unfold flush_count. induction H as [|c l Hc _ IH]; [done|].
  simpl. by rewrite (HP c Hc).
Qed.

Lemma prelude_not_flush c : prelude_call c = true -> is_flush c = false.
Proof. by destruct c. Qed.

Lemma export_not_flush c : export_call c = true -> is_flush c = false.
Proof. by destruct c. Qed.

Lemma reembed_not_flush c : reembed_call c = true -> is_flush c = false.
Proof. by destruct c. Qed.

Lemma prelude_not_mutating c : prelude_call c = true -> mutating c = false.
Proof. by destruct c. Qed.

Lemma export_not_mutating c : export_call c = true -> mutating c = false.
Proof. by destruct c. Qed.

(** C4: when the backup cannot be written, no run drops the collection or
    inserts into it; a run that tries the write ends there, by [return],
    its last reply the failure message, with no store-mutating call in
    its log. *)
Theorem backup_failure_aborts_migration
    (w : world) (force : option string) (fuel : nat) (r : res unit) (lg : log) :
  write_backup w = Err ->
  init_memory_system_cmd_impl w force fuel empty_log = (r, lg) ->
  (DropCollection ∉ calls lg) /\
  (forall row, Insert row ∉ calls lg) /\
  (forall old d records,
     WriteBackup old d records ∈ calls lg ->
     r = Returned /\
     last (replies lg) = Some BackupFailed /\
     last (calls lg) = Some (WriteBackup old d records) /\
     Forall (fun c => mutating c = false) (calls lg)).
Proof.
  intros Hw H.
  destruct (run_cases w force fuel r lg H)
    as [Hpre|[(pre & d & Hpre & _ & Hcs)|(l0 & old & d & r1 & l1 & Hpre & _ & Hm & Hcs & Hr)]].
  - split; [|split].
    + intros Hin. by apply (Forall_true_elem _ _ _ Hpre) in Hin.
    + intros row Hin. by apply (Forall_true_elem _ _ _ Hpre) in Hin.
    + intros old d records Hin. by apply (Forall_true_elem _ _ _ Hpre) in Hin.
  - rewrite Hcs. split; [|split].
    + intros [Hin|Hin]%elem_of_app.
      * by apply (Forall_true_elem _ _ _ Hpre) in Hin.
      * apply elem_of_cons in Hin as [?|Hin]; [done|]. by apply elem_of_nil in Hin.
    + intros row [Hin|Hin]%elem_of_app.
      * by apply (Forall_true_elem _ _ _ Hpre) in Hin.
      * apply elem_of_cons in Hin as [?|Hin]; [done|]. by apply elem_of_nil in Hin.
    + intros old' d' records [Hin|Hin]%elem_of_app.
      * by apply (Forall_true_elem _ _ _ Hpre) in Hin.
      * apply elem_of_cons in Hin as [?|Hin]; [done|]. by apply elem_of_nil in Hin.
  - destruct (migrate_backup_failure w fuel old d l0 r1 l1 Hw Hm)
      as (cs & rs & Hcs1 & Hrs1 & Hshape).
    rewrite Hcs, Hcs1.
    destruct Hshape as [Hexp|(qs & records & Hqs & -> & -> & Hlast)].
    + split; [|split].
      * intros [Hin|Hin]%elem_of_app;
          [by apply (Forall_true_elem _ _ _ Hpre) in Hin
          |by apply (Forall_true_elem _ _ _ Hexp) in Hin].
      * intros row [Hin|Hin]%elem_of_app;
          [by apply (Forall_true_elem _ _ _ Hpre) in Hin
          |by apply (Forall_true_elem _ _ _ Hexp) in Hin].
      * intros old' d' records [Hin|Hin]%elem_of_app;
          [by apply (Forall_true_elem _ _ _ Hpre) in Hin
          |by apply (Forall_true_elem _ _ _ Hexp) in Hin].
    + assert (forall c, c ∈ (calls l0 ++ qs ++ [WriteBackup old d records])%list ->
                        prelude_call c = true \/ export_call c = true \/
                        c = WriteBackup old d records) as Hall.
      { intros c Hin. rewrite !elem_of_app in Hin. destruct Hin as [Hin|[Hin|Hin]].
        - left. by apply (Forall_true_elem _ _ _ Hpre).
        - right; left. by apply (Forall_true_elem _ _ _ Hqs).
        - right; right. apply elem_of_cons in Hin as [?|Hin]; [done|].
          by apply elem_of_nil in Hin. }
      split; [|split].
      * intros Hin. by destruct (Hall _ Hin) as [?|[?|?]].
      * intros row Hin. by destruct (Hall _ Hin) as [?|[?|?]].
      * intros old' d' records' Hin.
        destruct (Hall _ Hin) as [?|[?|E]]; [done|done|]. rewrite E.
        destruct Hr as [(? & _)|(_ & -> & ->)]; [done|].
        split; [done|]. split.
        { rewrite Hrs1, last_app, Hlast. done. }
        split.
        { by rewrite !app_assoc, last_snoc. }
        apply Forall_forall. intros c Hc.
        destruct (Hall _ Hc) as [?|[?| ->]];
          [by apply prelude_not_mutating|by apply export_not_mutating|done].
Qed.

(** C2 (amended): in a run that wrote the backup of the exported records
    and whose drop and creation succeeded, the re-embedding loop counts
    each record with non-empty content once, as a success or as a failure,
    and skips the others; with at least one exported record [flush] is
    called exactly once and, when it returns, the last reply is the report
    with these counts; with no exported record [flush] is not called and
    the last reply says so. *)
Theorem migration_report_counts
    (w : world) (force : option string) (fuel : nat) (r : res unit) (lg : log)
    (old : option Z) (d : Z) (records : list record) :
  write_backup w = Ok tt ->
  drop_collection w = Ok true ->
  setup_collection w = Ok tt ->
  init_memory_system_cmd_impl w force fuel empty_log = (r, lg) ->
  WriteBackup old d records ∈ calls lg ->
  r = Value tt /\
  match records with
  | [] => flush_count (calls lg) = 0 /\ last (replies lg) = Some MigrationDoneNoData
  | _ =>
      flush_count (calls lg) = 1 /\
      exists success_count fail_count,
        success_count + fail_count = length (List.filter has_content records) /\
        success_count + fail_count <= length records /\
        ((flush w = Ok tt /\
          last (replies lg) = Some (MigrationDone success_count fail_count d)) \/
         (flush w = Err /\ last (replies lg) = Some InitFailed))
  end.
Proof.
  intros Hw Hd Hs H Hin.
  destruct (run_cases w force fuel r lg H)
    as [Hpre|[(pre & d' & Hpre & _ & Hcs)|(l0 & old' & d' & r1 & l1 & Hpre & _ & Hm & Hcs & Hr)]].
  - by apply (Forall_true_elem _ _ _ Hpre) in Hin.
  - rewrite Hcs in Hin. apply elem_of_app in Hin as [Hin|Hin].
    + by apply (Forall_true_elem _ _ _ Hpre) in Hin.
    + apply elem_of_cons in Hin as [?|Hin]; [done|]. by apply elem_of_nil in Hin.
  - destruct (migrate_report w fuel old' d' l0 r1 l1 Hw Hd Hs Hm)
      as (cs & rs & Hcs1 & Hrs1 & Hshape).
    rewrite Hcs, Hcs1 in Hin |- *.
    destruct Hshape as [Hexp|(qs & records' & es & s & f & Hqs & Hes & Hsum & Hshape)].
    { apply elem_of_app in Hin as [Hin|Hin];
        [by apply (Forall_true_elem _ _ _ Hpre) in Hin
        |by apply (Forall_true_elem _ _ _ Hexp) in Hin]. }
    assert (flush_count (calls l0) = 0) as Hf0
      by (eapply flush_count_none; [apply prelude_not_flush|done]).
    assert (flush_count qs = 0) as Hfq
      by (eapply flush_count_none; [apply export_not_flush|done]).
    assert (flush_count es = 0) as Hfe
      by (eapply flush_count_none; [apply reembed_not_flush|done]).
    assert (length (List.filter has_content records') <= length records') as Hle
      by apply List.filter_length_le.
    assert (old = old' /\ d = d' /\ records = records') as (<- & <- & <-).
    { destruct records' as [|r0 records']; destruct Hshape as (-> & _);
        rewrite !elem_of_app, ?elem_of_cons, ?elem_of_nil in Hin;
        destruct Hin as [Hin|[Hin|Hin]].
      - by apply (Forall_true_elem _ _ _ Hpre) in Hin.
      - by apply (Forall_true_elem _ _ _ Hqs) in Hin.
      - destruct Hin as [E|[E|[E|E]]]; [by inversion E|done|done|done].
      - by apply (Forall_true_elem _ _ _ Hpre) in Hin.
      - by apply (Forall_true_elem _ _ _ Hqs) in Hin.
      - destruct Hin as [[E|[E|[E|E]]]|[Hin|[E|E]]];
          [by inversion E|done|done|done| |done|done].
        by apply (Forall_true_elem _ _ _ Hes) in Hin. }
    destruct records as [|r0 records].
    + destruct Hshape as (-> & -> & Hlast).
      destruct Hr as [(? & _)|(_ & -> & ->)]; [done|].
      split; [done|]. split.
      * rewrite !flush_count_app, Hf0, Hfq. done.
      * rewrite Hrs1, last_app, Hlast. done.
    + destruct Hshape as (-> & Hend).
      assert (flush_count
                (calls l0 ++ qs ++ [WriteBackup old d (r0 :: records); DropCollection;
                                    SetupCollection d] ++ es ++ [Flush]) = 1) as Hone.
      { rewrite !flush_count_app, Hf0, Hfq, Hfe. done. }
      destruct Hend as [(Hfl & -> & Hlast)|(Hfl & ->)].
      * destruct Hr as [(? & _)|(_ & -> & ->)]; [done|].
        split; [done|]. split; [exact Hone|].
        exists s, f. split; [done|]. split; [lia|]. left. split; [done|].
        rewrite Hrs1, last_app, Hlast. done.
      * destruct Hr as [(_ & -> & ->)|(? & _)]; [|done].
        split; [done|]. split; [exact Hone|].
        exists s, f. split; [done|]. split; [lia|]. right. split; [done|].
        by rewrite last_snoc.
Qed.

(** A connection that is up, or comes up on the first call *)
Lemma connect_succeeds w l :
  milvus_manager w = true ->
  is_connected w = Ok true \/ (is_connected w = Ok false /\ list_collections w = Ok tt) ->
  exists cs,
    connect w l = (Value tt, Log (calls l ++ cs) (replies l)) /\
    Forall (fun c => prelude_call c = true) cs.
Proof.
  intros Hmm Hconn. unfold connect, bind, try_, invoke, ret. rewrite Hmm. cbn [negb].
  destruct Hconn as [->|[-> ->]]; cbn [negb calls replies].
  - exists [IsConnected]. by repeat constructor.
  - exists [IsConnected; ListCollections]. rewrite <- app_assoc. by repeat constructor.
Qed.

(** A provider that knows its dimension, by attribute or by method *)
Lemma probe_dimension_succeeds w l d :
  provider_ready w = true ->
  (0 < d)%Z ->
  embedding_dim w = Ok (Some d) \/
    (exists d0, embedding_dim w = Ok d0 /\ falsy_dim d0 = true /\
                get_dim w = Some (Ok (Some d))) ->
  exists cs,
    probe_dimension w l = (Value d, Log (calls l ++ cs) (replies l)) /\
    Forall (fun c => prelude_call c = true) cs.
Proof.
  intros Hready Hd Hdim.
  assert ((d =? 0)%Z = false) as Hnz by (destruct (Z.eqb_spec d 0); [lia|done]).
  assert ((d <=? 0)%Z = false) as Hpos by (destruct (Z.leb_spec d 0); [lia|done]).
  unfold probe_dimension, bind, try_, invoke, ret. rewrite Hready. cbn [negb].
  destruct l as [cs0 rs0].
  assert (falsy_dim (Some d) = false) as Hfz by exact Hnz.
  destruct Hdim as [->|(d0 & -> & Hf0 & ->)].
  - exists []. rewrite app_nil_r. split; [|done].
    destruct (get_dim w); rewrite ?Hfz, ?Hpos; reflexivity.
  - exists [GetDim]. split; [|by repeat constructor].
    rewrite Hf0. cbn [calls replies]. by rewrite Hfz, Hpos.
Qed.

(** C5: with the collection present and its vector field of the
    provider's dimension, the command ends normally with the one reply that
    no migration is needed, and its calls only read. *)
Theorem matching_dimension_no_migration
    (w : world) (force : option string) (fuel : nat) (d : Z)
    (fields : list schema_field) (f : schema_field) :
  milvus_manager w = true ->
  is_connected w = Ok true \/ (is_connected w = Ok false /\ list_collections w = Ok tt) ->
  provider_ready w = true ->
  (0 < d)%Z ->
  embedding_dim w = Ok (Some d) \/
    (exists d0, embedding_dim w = Ok d0 /\ falsy_dim d0 = true /\
                get_dim w = Some (Ok (Some d))) ->
  has_collection w = Ok true ->
  get_collection w = Ok (Some fields) ->
  List.find (fun f => String.eqb (field_name f) "embedding") fields = Some f ->
  field_dim f = Some d ->
  exists lg,
    init_memory_system_cmd_impl w force fuel empty_log = (Value tt, lg) /\
    replies lg = [NoMigrationNeeded d] /\
    Forall (fun c => mutating c = false) (calls lg) /\
    Forall (fun c => prelude_call c = true) (calls lg) /\
    flush_count (calls lg) = 0.
Proof.
  intros Hmm Hconn Hready Hd Hdim Hhas Hcol Hfind Hfd.
  assert (compare_dimension (Some fields) d = (false, Some d)) as Hcmp.
  { unfold compare_dimension. rewrite Hfind, Hfd. by rewrite bool_decide_eq_true_2. }
  destruct (connect_succeeds w empty_log Hmm Hconn) as (cs0 & Ec & Hcs0).
  destruct (probe_dimension_succeeds w (Log (calls empty_log ++ cs0) (replies empty_log))
              d Hready Hd Hdim) as (cs1 & Ep & Hcs1).
  unfold init_memory_system_cmd_impl.
  unfold bind at 1. rewrite Ec.
  unfold try_ at 1, bind at 1. rewrite Ep.
  unfold bind at 1, invoke at 1. rewrite Hhas. cbn [calls replies].
  unfold bind at 1, invoke at 1. rewrite Hcol. cbn [calls replies].
  rewrite Hcmp. unfold yield. cbn [calls replies empty_log app].
  eexists. split; [reflexivity|]. cbn [calls replies].
  split; [reflexivity|].
  assert (Forall (fun c => prelude_call c = true)
            (((cs0 ++ cs1) ++ [HasCollection]) ++ [GetCollection])) as Hall.
  { repeat (apply Forall_app; split); try done; by repeat constructor. }
  split; [|split; [exact Hall|]].
  - eapply Forall_impl; [exact Hall|]. apply prelude_not_mutating.
  - eapply flush_count_none; [apply prelude_not_flush|exact Hall].
Qed.

Example resized_run :
  init_memory_system_cmd_impl (resized_world [greeting; blank] (Ok tt))
                              (Some "--force") 1 empty_log =
  (Value tt,
   Log [ IsConnected; HasCollection; GetCollection; Mkdir; Query batch_size 0;
         WriteBackup (Some 768%Z) 1024 [greeting; blank];
         DropCollection; SetupCollection 1024; GetEmbedding "hello";
         Insert (InsertRow (Val "p1") (Val "s1") "hello" [1%Z; 2%Z] (Val 1700000000%Z));
         Flush ]
       [ MigrationStarted (Some 768%Z) 1024; Exporting; BackupSaved 2; Dropped;
         Created 1024; Reembedding 2; MigrationDone 1 0 1024 ]).
Proof. vm_compute. reflexivity. Qed.

Example empty_store_run :
  init_memory_system_cmd_impl (resized_world [] (Ok tt)) (Some "--force") 1 empty_log =
  (Value tt,
   Log [ IsConnected; HasCollection; GetCollection; Mkdir; Query batch_size 0;
         WriteBackup (Some 768%Z) 1024 []; DropCollection; SetupCollection 1024 ]
       [ MigrationStarted (Some 768%Z) 1024; Exporting; BackupSaved 0; Dropped;
         Created 1024; MigrationDoneNoData ]).
Proof. vm_compute. reflexivity. Qed.

Example unwritable_backup_run :
  init_memory_system_cmd_impl (resized_world [greeting; blank] Err)
                              (Some "--force") 1 empty_log =
  (Returned,
   Log [ IsConnected; HasCollection; GetCollection; Mkdir; Query batch_size 0;
         WriteBackup (Some 768%Z) 1024 [greeting; blank] ]
       [ MigrationStarted (Some 768%Z) 1024; Exporting; BackupFailed ]).
Proof. vm_compute. reflexivity. Qed.

(** C2 as stated fails: two records are exported and the report counts
    one success and no failure, the record without text being skipped;
    and with no record exported [flush] is not called. *)
Lemma blank_record_not_counted :
  (exists lg,
     init_memory_system_cmd_impl (resized_world [greeting; blank] (Ok tt))
                                 (Some "--force") 1 empty_log = (Value tt, lg) /\
     WriteBackup (Some 768%Z) 1024 [greeting; blank] ∈ calls lg /\
     last (replies lg) = Some (MigrationDone 1 0 1024) /\
     1 + 0 <> length [greeting; blank]) /\
  (exists lg,
     init_memory_system_cmd_impl (resized_world [] (Ok tt))
                                 (Some "--force") 1 empty_log = (Value tt, lg) /\
     flush_count (calls lg) = 0).
Proof.
  split.
  - eexists. split; [apply resized_run|]. simpl. split; [|split; [done|lia]].
    do 5 apply list_elem_of_further. apply list_elem_of_here.
  - eexists. split; [apply empty_store_run|]. reflexivity.
Qed.

Lemma migration_report_counts_witness :
  flush_count
    (calls (snd (init_memory_system_cmd_impl (resized_world [greeting; blank] (Ok tt))
                   (Some "--force") 1 empty_log))) = 1 /\
  exists success_count fail_count,
    success_count + fail_count = 1 /\
    last (replies (snd (init_memory_system_cmd_impl
                          (resized_world [greeting; blank] (Ok tt))
                          (Some "--force") 1 empty_log))) =
      Some (MigrationDone success_count fail_count 1024).
Proof.
  rewrite resized_run.
  destruct (migration_report_counts
              (resized_world [greeting; blank] (Ok tt)) (Some "--force") 1 _ _
              (Some 768%Z) 1024 [greeting; blank]
              eq_refl eq_refl eq_refl resized_run) as (_ & Hflush & s & f & Hsum & _ & Hend).
  - simpl. do 5 apply list_elem_of_further. apply list_elem_of_here.
  - split; [exact Hflush|]. exists s, f. split; [exact Hsum|].
    destruct Hend as [(_ & Hlast)|(Hfl & _)]; [exact Hlast|discriminate Hfl].
Defined.

Lemma backup_failure_aborts_migration_witness :
  DropCollection ∉
    calls (snd (init_memory_system_cmd_impl (resized_world [greeting; blank] Err)
                  (Some "--force") 1 empty_log)).
Proof.
  rewrite unwritable_backup_run.
  apply (backup_failure_aborts_migration
           (resized_world [greeting; blank] Err) (Some "--force") 1 _ _
           eq_refl unwritable_backup_run).
Defined.

Lemma matching_dimension_no_migration_witness :
  exists lg,
    init_memory_system_cmd_impl same_dimension_world None 0 empty_log = (Value tt, lg) /\
    replies lg = [NoMigrationNeeded 768] /\
    Forall (fun c => mutating c = false) (calls lg) /\
    Forall (fun c => prelude_call c = true) (calls lg) /\
    flush_count (calls lg) = 0.
Proof.
  apply (matching_dimension_no_migration same_dimension_world None 0 768
           [SchemaField "memory_id" None; SchemaField "embedding" (Some 768%Z)]
           (SchemaField "embedding" (Some 768%Z))).
  - reflexivity.
  - left. reflexivity.
  - reflexivity.
  - lia.
  - left. reflexivity.
  - reflexivity.
  - reflexivity.
  - reflexivity.
  - reflexivity.
Defined.

End MigrationFacts.

(** * More on the retention engine *)

Section RetentionFacts.
Import Regex Tools Spec RetentionSpec Cases.

Lemma findall_pieces s b : b ∈ findall s <-> In (Blk b) (scan s).
Proof.
  unfold findall. induction (scan s) as [|[c|b'] ps IH]; simpl.
  - split; [by intros ?%elem_of_nil|done].
  - rewrite IH. split; [by right|]. by intros [?|?].
  - rewrite elem_of_cons, IH. split.
    + intros [->|?]; [by left|by right].
    + intros [E|?]; [left; by inversion E|by right].
Qed.

Lemma blocks_of_member contents i item text b :
  contents !! i = Some item ->
  has_role "user" item = true ->
  content_of item = PStr text ->
  b ∈ findall text -> b ∈ all_mnemosyne_blocks contents.
Proof.
  intros Hi Hr Hc Hb. unfold all_mnemosyne_blocks.
  apply list_elem_of_In, in_flat_map. exists item. split.
  - apply list_elem_of_In. by eapply list_elem_of_lookup_2.
  - unfold blocks_of_item. rewrite Hr, Hc. by apply list_elem_of_In.
Qed.

Lemma last_slice_all {A} (k : Z) (l : list A) :
  length l <= Z.to_nat k -> last_slice k l = l.
Proof. intros H. unfold last_slice. by replace (length l - Z.to_nat k) with 0 by lia. Qed.

(** X1: with K > 0 and no more than K blocks in all user messages, no
    block is erased: every user message with text content keeps its text. *)
Theorem few_blocks_all_kept
    (contents : list pyval) (K : Z) (i : nat) (item : pyval) (text : string) :
  (0 < K)%Z ->
  length (all_mnemosyne_blocks contents) <= Z.to_nat K ->
  contents !! i = Some item ->
  has_role "user" item = true ->
  content_of item = PStr text ->
  exists out,
    remove_mnemosyne_tags contents K !! i = Some out /\
    has_role "user" out = true /\
    content_of out = PStr text.
Proof.
  intros HK Hlen Hi Hr Hc.
  rewrite remove_tags_positive, list_lookup_fmap, Hi by done. simpl.
  eexists. split; [reflexivity|].
  destruct (filter_item_text (blocks_to_keep contents K) item text Hr Hc) as [H1 H2].
  split; [exact H1|]. rewrite H2. f_equal.
  unfold sub. transitivity (join (fun b => b) (scan text)); [|apply join_scan].
  apply join_ext. intros b Hb. unfold replace_logic.
  rewrite bool_decide_eq_true_2; [done|].
  unfold blocks_to_keep. rewrite last_slice_all by done.
  apply elem_of_list_to_set. eapply blocks_of_member; try done.
  by apply findall_pieces.
Qed.

Lemma few_blocks_all_kept_witness :
  exists out,
    remove_mnemosyne_tags scenario 3 !! 2 = Some out /\
    has_role "user" out = true /\
    content_of out = PStr "<Mnemosyne>B</Mnemosyne> <Mnemosyne>C</Mnemosyne> bye".
Proof.
  apply (few_blocks_all_kept scenario 3 2
           (user_message (PStr "<Mnemosyne>B</Mnemosyne> <Mnemosyne>C</Mnemosyne> bye"))).
  - lia.
  - vm_compute. lia.
  - reflexivity.
  - apply user_message_role.
  - apply user_message_content.
Defined.

(** X2: for every budget the result has one item per input item, and an
    item that is not a dict with role "user" is the input item itself, at
    the same place. *)
Theorem other_roles_passed_through
    (contents : list pyval) (K : Z) (i : nat) (item : pyval) :
  contents !! i = Some item ->
  has_role "user" item = false ->
  remove_mnemosyne_tags contents K !! i = Some item /\
  length (remove_mnemosyne_tags contents K) = length contents.
Proof.
  intros Hi Hr. split; [|apply remove_tags_length].
  unfold remove_mnemosyne_tags.
  destruct (K <? 0)%Z; [done|].
  destruct (K =? 0)%Z; rewrite list_lookup_fmap, Hi; simpl.
  - unfold strip_item. by rewrite Hr.
  - unfold filter_item. by rewrite Hr.
Qed.

Lemma other_roles_passed_through_witness :
  remove_mnemosyne_tags scenario 1 !! 1 =
    Some (PDict {[ "role" := PStr "assistant"; "content" := PStr "ok" ]}) /\
  length (remove_mnemosyne_tags scenario 1) = length scenario.
Proof.
  apply (other_roles_passed_through scenario 1 1).
  - reflexivity.
  - vm_compute. reflexivity.
Defined.

(** X3: the system-prompt variant follows the same policy as the message
    variant: on a sequence made of one user message with text content, the
    text the message variant leaves is the text the system-prompt variant
    returns, for every budget. *)
Theorem system_variant_agrees (text : string) (K : Z) :
  content_of <$> remove_mnemosyne_tags [user_message (PStr text)] K =
  [remove_system_mnemosyne_tags (PStr text) K].
Proof.
  unfold remove_mnemosyne_tags, remove_system_mnemosyne_tags.
  destruct (K <? 0)%Z; [cbn [fmap list_fmap]; by rewrite user_message_content|].
  destruct (K =? 0)%Z; cbn [fmap list_fmap].
  - unfold strip_item. rewrite user_message_role, user_message_content.
    by rewrite user_message_content.
  - unfold filter_item. rewrite user_message_role, user_message_content.
    assert (all_mnemosyne_blocks [user_message (PStr text)] = findall text) as E.
    { unfold all_mnemosyne_blocks. cbn [flat_map]. unfold blocks_of_item.
      rewrite user_message_role, user_message_content. apply app_nil_r. }
    unfold blocks_to_keep. rewrite E.
    destruct (search text); by rewrite user_message_content.
Qed.

(** X4: the system-prompt variant hands back its argument untouched when
    it is not a string, when the budget is negative, when the text holds no
    block, and when the budget is positive and the text holds no more
    blocks than the budget. *)
Theorem system_text_unchanged (v : pyval) (K : Z) :
  (forall t, v <> PStr t) \/ (K < 0)%Z \/
  (exists t, v = PStr t /\
     (findall t = [] \/ ((0 < K)%Z /\ length (findall t) <= Z.to_nat K))) ->
  remove_system_mnemosyne_tags v K = v.
Proof.
  intros [Hv|[HK|(t & -> & Ht)]].
  - destruct v; try done. exfalso; by apply (Hv s).
  - unfold remove_system_mnemosyne_tags. destruct v; try done.
    by rewrite (proj2 (Z.ltb_lt _ _) HK).
  - unfold remove_system_mnemosyne_tags.
    destruct (K <? 0)%Z; [done|].
    destruct Ht as [Hn|[HK Hlen]].
    + apply search_findall in Hn.
      destruct (K =? 0)%Z; [|by rewrite Hn].
      f_equal. by apply (sub_no_match (fun _ => "")).
    + destruct (Z.eqb_spec K 0); [lia|].
      destruct (search t); [|done]. f_equal.
      unfold sub. transitivity (join (fun b => b) (scan t)); [|apply join_scan].
      apply join_ext. intros b Hb. unfold replace_logic.
      rewrite bool_decide_eq_true_2; [done|].
      rewrite last_slice_all by done.
      apply elem_of_list_to_set. by apply findall_pieces.
Qed.

Lemma system_text_unchanged_witness :
  remove_system_mnemosyne_tags (PList []) 0 = PList [] /\
  remove_system_mnemosyne_tags (PStr "<Mnemosyne>A</Mnemosyne> rules") 1 =
    PStr "<Mnemosyne>A</Mnemosyne> rules".
Proof.
  split.
  - apply (system_text_unchanged (PList []) 0). left. intros t. discriminate.
  - apply (system_text_unchanged (PStr "<Mnemosyne>A</Mnemosyne> rules") 1).
    right. right. eexists. split; [reflexivity|]. right. split; [lia|].
    vm_compute. lia.
Defined.

Lemma enumerate_from_cons j x l :
  enumerate_from j (x :: l) = (j, x) :: enumerate_from (S j) l.
Proof.
  unfold enumerate_from. rewrite imap_cons. f_equal; [f_equal; lia|].
  apply imap_ext. intros i y _. simpl. f_equal. lia.
Qed.

Lemma enumerate_from_ge j l i x : (i, x) ∈ enumerate_from j l -> j <= i.
Proof.
  revert j. induction l as [|y l IH]; intros j H.
  - by apply elem_of_nil in H.
  - rewrite enumerate_from_cons in H. apply elem_of_cons in H as [E|H].
    + inversion E. lia.
    + apply IH in H. lia.
Qed.

Lemma indices_from_cons j x l :
  indices_from j (x :: l) =
  if is_system x then j :: indices_from (S j) l else indices_from (S j) l.
Proof.
  unfold indices_from. rewrite enumerate_from_cons. simpl. by destruct (is_system x).
Qed.

Lemma indices_from_ge j l i : i ∈ indices_from j l -> j <= i.
Proof.
  unfold indices_from. intros ([i' x] & Hin & Hf)%list_elem_of_omap. simpl in Hf.
  destruct (is_system x); [|done]. inversion Hf; subst.
  by eapply enumerate_from_ge.
Qed.

Lemma indices_from_length j l :
  length (indices_from j l) = length (List.filter is_system l).
Proof.
  revert j. induction l as [|x l IH]; intros j; [done|].
  rewrite indices_from_cons. simpl. destruct (is_system x); simpl; by rewrite IH.
Qed.

Lemma omap_agree {A B} (f g : A -> option B) (l : list A) :
  (forall x, x ∈ l -> f x = g x) -> omap f l = omap g l.
Proof.
  induction l as [|x l IH]; intros H; [done|]. csimpl.
  rewrite (H x) by apply list_elem_of_here.
  rewrite IH; [done|]. intros y Hy. apply H. by apply list_elem_of_further.
Qed.

(** Leaving out the indices of the first [m] system messages leaves out
    the first [m] system messages. *)
Lemma filter_indices_drop_systems l : forall m j,
  omap (fun im : nat * pyval =>
          if bool_decide (im.1 ∈ (list_to_set (take m (indices_from j l)) : gset nat))
          then None else Some im.2)
       (enumerate_from j l) = drop_systems m l.
Proof.
  induction l as [|x l IH]; intros m j; [done|].
  rewrite enumerate_from_cons, indices_from_cons. simpl.
  destruct (is_system x) eqn:Hx.
  - destruct m as [|m]; simpl.
    + rewrite bool_decide_eq_false_2 by set_solver. f_equal.
      rewrite <- (IH 0 (S j)). by rewrite take_0.
    + rewrite bool_decide_eq_true_2 by set_solver.
      rewrite <- (IH m (S j)). apply omap_agree. intros [i y] Hin. simpl.
      apply enumerate_from_ge in Hin.
      destruct (decide (i ∈ (list_to_set (take m (indices_from (S j) l)) : gset nat))).
      * rewrite !bool_decide_eq_true_2; [done|done|set_solver].
      * rewrite !bool_decide_eq_false_2; [done|done|].
        intros [->%elem_of_singleton|?]%elem_of_union; [lia|done].
  - rewrite bool_decide_eq_false_2.
    + f_equal. apply IH.
    + intros Hin%elem_of_list_to_set. apply subseteq_take, indices_from_ge in Hin. lia.
Qed.

Lemma drop_systems_zero l : drop_systems 0 l = l.
Proof. induction l as [|x l IH]; simpl; [done|]. destruct (is_system x); by rewrite IH. Qed.

Lemma drop_systems_others m l :
  List.filter (fun x => negb (is_system x)) (drop_systems m l) =
  List.filter (fun x => negb (is_system x)) l.
Proof.
  revert m. induction l as [|x l IH]; intros m; simpl; [done|].
  destruct (is_system x) eqn:Hx; simpl.
  - destruct m; simpl; rewrite ?Hx; simpl; apply IH.
  - rewrite Hx. simpl. by rewrite IH.
Qed.

Lemma drop_systems_systems m l :
  List.filter is_system (drop_systems m l) = drop m (List.filter is_system l).
Proof.
  revert m. induction l as [|x l IH]; intros m; simpl; [by destruct m|].
  destruct (is_system x) eqn:Hx; simpl.
  - destruct m; simpl; rewrite ?Hx; [|apply IH]. by rewrite IH.
  - rewrite Hx. apply IH.
Qed.

Lemma drop_systems_sublist m l : drop_systems m l `sublist_of` l.
Proof.
  revert m. induction l as [|x l IH]; intros m; simpl; [constructor|].
  destruct (is_system x); [destruct m|]; by constructor.
Qed.

(** The function and the list without its oldest system messages *)
Lemma remove_system_content_drop (msgs : list pyval) (K : Z) :
  (0 <= K)%Z ->
  remove_system_content (PList msgs) K =
  PList (drop_systems (length (List.filter is_system msgs) - Z.to_nat K) msgs).
Proof.
  intros HK. unfold remove_system_content.
  destruct (Z.ltb_spec K 0); [lia|]. f_equal.
  change (imap pair msgs) with (enumerate_from 0 msgs).
  change (system_message_indices msgs) with (indices_from 0 msgs).
  rewrite indices_from_length.
  set (n := length (List.filter is_system msgs)).
  destruct (Z.ltb_spec K (Z.of_nat n)).
  - replace (Z.to_nat (Z.of_nat n - K)) with (n - Z.to_nat K) by lia.
    apply filter_indices_drop_systems.
  - replace (n - Z.to_nat K) with 0 by lia. rewrite drop_systems_zero.
    rewrite <- (drop_systems_zero msgs) at 2.
    rewrite <- (filter_indices_drop_systems msgs 0 0). by rewrite take_0.
Qed.

(** X5: with a budget K >= 0 the system messages that stay are the last K
    of them (all of them when there are no more than K), in their order. *)
Theorem remove_system_content_keeps_latest (msgs : list pyval) (K : Z) :
  (0 <= K)%Z ->
  exists out,
    remove_system_content (PList msgs) K = PList out /\
    List.filter is_system out =
      drop (length (List.filter is_system msgs) - Z.to_nat K) (List.filter is_system msgs) /\
    length (List.filter is_system out) =
      Nat.min (length (List.filter is_system msgs)) (Z.to_nat K).
Proof.
  intros HK. eexists. split; [by apply remove_system_content_drop|].
  rewrite drop_systems_systems. split; [done|]. rewrite length_drop. lia.
Qed.

Lemma remove_system_content_keeps_latest_witness :
  exists out,
    remove_system_content (PList prompts) 2 = PList out /\
    List.filter is_system out =
      drop (length (List.filter is_system prompts) - Z.to_nat 2)
           (List.filter is_system prompts) /\
    length (List.filter is_system out) =
      Nat.min (length (List.filter is_system prompts)) (Z.to_nat 2).
Proof. apply (remove_system_content_keeps_latest prompts 2). lia. Defined.

(** X6: with a budget K >= 0 the result is the input with some system
    messages left out and nothing else changed: it is a sublist of the
    input, and the messages that are not system messages are all there, in
    their order. *)
Theorem remove_system_content_spares_others (msgs : list pyval) (K : Z) :
  (0 <= K)%Z ->
  exists out,
    remove_system_content (PList msgs) K = PList out /\
    out `sublist_of` msgs /\
    List.filter (fun x => negb (is_system x)) out =
      List.filter (fun x => negb (is_system x)) msgs.
Proof.
  intros HK. eexists. split; [by apply remove_system_content_drop|].
  split; [apply drop_systems_sublist|apply drop_systems_others].
Qed.

Lemma remove_system_content_spares_others_witness :
  exists out,
    remove_system_content (PList prompts) 0 = PList out /\
    out `sublist_of` prompts /\
    List.filter (fun x => negb (is_system x)) out =
      List.filter (fun x => negb (is_system x)) prompts.
Proof. apply (remove_system_content_spares_others prompts 0). lia. Defined.

Example prompts_keep_two :
  remove_system_content (PList prompts) 2 =
  PList [ PDict {[ "role" := PStr "user"; "content" := PStr "hi" ]};
          PDict {[ "role" := PStr "system"; "content" := PStr "two" ]};
          PDict {[ "role" := PStr "system"; "content" := PStr "three" ]} ].
Proof. vm_compute. reflexivity. Qed.

End RetentionFacts.

(** * More on the session tracker *)

Section TrackerFacts.
Import ContextManager.

(** X7: creating a session is idempotent and the first creation wins:
    [init_conv] and [add_message] leave a session that is already there as
    it is, stamp and event, whichever of the two made it first. *)
Theorem session_creation_idempotent
    (self : conversations) (session_id : string)
    (ev ev' : AstrMessageEvent) (now now' : Z) :
  init_conv (init_conv self session_id ev now) session_id ev' now' =
    init_conv self session_id ev now /\
  add_message (init_conv self session_id ev now) session_id now' =
    init_conv self session_id ev now /\
  add_message (add_message self session_id now) session_id now' =
    add_message self session_id now /\
  init_conv (add_message self session_id now) session_id ev' now' =
    add_message self session_id now.
Proof.
  unfold init_conv, add_message.
  destruct (self !! session_id) eqn:E; rewrite ?E, ?lookup_insert_eq; done.
Qed.

(** X8: a session created at time [now] answers [now] as its last summary
    time, and the creation changes the answer for no other session. *)
Theorem new_session_stamped
    (self : conversations) (session_id other : string)
    (ev : AstrMessageEvent) (now : Z) :
  self !! session_id = None ->
  get_summary_time (init_conv self session_id ev now) session_id = now /\
  get_summary_time (add_message self session_id now) session_id = now /\
  (other <> session_id ->
   get_summary_time (init_conv self session_id ev now) other = get_summary_time self other /\
   get_summary_time (add_message self session_id now) other = get_summary_time self other).
Proof.
  intros H. unfold get_summary_time, init_conv, add_message. rewrite H.
  rewrite !lookup_insert_eq. split; [done|]. split; [done|].
  intros Hne. by rewrite !lookup_insert_ne.
Qed.

Lemma new_session_stamped_witness :
  get_summary_time (init_conv ∅ "alice" (Event "alice") 1700000000) "alice" = 1700000000%Z /\
  get_summary_time (add_message ∅ "alice" 1700000000) "alice" = 1700000000%Z.
Proof.
  destruct (new_session_stamped ∅ "alice" "bob" (Event "alice") 1700000000
              (lookup_empty "alice")) as (H1 & H2 & _).
  split; [exact H1|exact H2].
Defined.

(** X9: for a known session [update_summary_time] sets the stamp to the
    new time and nothing else: the event of the session stays, the set of
    sessions stays, and every other session answers as before. *)
Theorem known_session_restamped
    (self : conversations) (session_id other : string) (c : conversation) (now : Z) :
  self !! session_id = Some c ->
  update_summary_time self session_id now !! session_id =
    Some (Conversation (event c) now) /\
  get_summary_time (update_summary_time self session_id now) session_id = now /\
  dom (update_summary_time self session_id now) = dom self /\
  (other <> session_id ->
   update_summary_time self session_id now !! other = self !! other).
Proof.
  intros H. unfold get_summary_time, update_summary_time. rewrite H.
  rewrite !lookup_insert_eq. split; [done|]. split; [done|]. split.
  - rewrite dom_insert_L. apply subseteq_union_1_L, singleton_subseteq_l.
    by eapply elem_of_dom_2.
  - intros Hne. by rewrite lookup_insert_ne.
Qed.

Lemma known_session_restamped_witness :
  get_summary_time
    (update_summary_time (init_conv ∅ "alice" (Event "alice") 1700000000) "alice" 1700000060)
    "alice" = 1700000060%Z.
Proof.
  apply (known_session_restamped (init_conv ∅ "alice" (Event "alice") 1700000000)
           "alice" "bob" (Conversation (Some (Event "alice")) 1700000000) 1700000060).
  vm_compute. reflexivity.
Defined.

End TrackerFacts.

(** * More on the listing *)

Section ListingMore.
Import Commands ListingSpec Cases.

(** A reply that is not a listing is not the listing looked for. *)
Lemma listing_in_single total display r :
  Listing total display ∈ [r] -> r = Listing total display.
Proof. intros H. apply elem_of_cons in H as [->|H]; [done|]. by apply elem_of_nil in H. Qed.

(** X10: a listing is only ever produced for a connected store, a limit
    within 1..50, an existing collection, a session id that is absent or
    valid with its expression built, and a non-empty query result; it
    reports the number of fetched rows and shows the first [limit] rows of
    the sorted result, that is min(limit, fetched) rows, at least one and
    at most 50, each of which could be formatted. *)
Theorem listing_well_formed
    (ceiling : nat) (fromtimestamp : Z -> time_str) (env : list_env) (limit : Z)
    (total : nat) (display : list record) :
  Listing total display ∈ yielded (list_records_cmd_impl ceiling fromtimestamp env limit) ->
  manager env = true /\
  connected env = Ok true /\
  (1 <= limit <= 50)%Z /\
  collection_exists env = Ok true /\
  session_id_valid env <> Some (Ok false) /\
  (session_id_valid env = None \/
   (session_id_valid env = Some (Ok true) /\ exists expr, expression_built env = Built expr)) /\
  exists rows,
    fetched env = Ok (Some rows) /\ rows <> [] /\
    total = length rows /\
    display = take (Z.to_nat limit) (sort_desc rows) /\
    length display = Nat.min (Z.to_nat limit) total /\
    1 <= length display <= 50 /\
    forallb (format_record fromtimestamp) display = true.
Proof.
  unfold list_records_cmd_impl. intros H.
  destruct (manager env); cbn [negb yielded] in H;
    [|by apply listing_in_single in H].
  destruct (connected env) as [[]|]; cbn [yielded] in H;
    [|by apply listing_in_single in H|by apply elem_of_nil in H].
  destruct (Z.leb_spec limit 0); cbn [orb yielded] in H;
    [by apply listing_in_single in H|].
  destruct (Z.ltb_spec 50 limit); cbn [yielded] in H;
    [by apply listing_in_single in H|].
  destruct (collection_exists env) as [[]|]; cbn [yielded] in H;
    [|by apply listing_in_single in H|by apply listing_in_single in H].
  assert (session_id_valid env = None \/
          (session_id_valid env = Some (Ok true) /\
           exists expr, expression_built env = Built expr)) as Hs.
  { destruct (session_id_valid env) as [[[]|]|]; cbn [yielded] in H;
      [|by apply listing_in_single in H|by apply listing_in_single in H|by left].
    destruct (expression_built env) as [expr| |]; cbn [yielded] in H;
      [|by apply listing_in_single in H|by apply listing_in_single in H].
    right. split; [done|]. by exists expr. }
  assert (Listing total display ∈
          match fetched env with
          | Ok (Some []) => [NoRecords]
          | Ok (Some fetched_records) =>
              ((if bool_decide (ceiling <= length fetched_records)
                then [CeilingWarning] else []) ++
               [if forallb (format_record fromtimestamp)
                     (take (Z.to_nat limit) (sort_desc fetched_records))
                then Listing (length fetched_records)
                       (take (Z.to_nat limit) (sort_desc fetched_records))
                else InternalError])%list
          | Ok None => [QueryFailed]
          | Err => [InternalError]
          end) as H'.
  { destruct Hs as [Hs|[Hs [expr He]]]; rewrite Hs in H; [exact H|].
    rewrite He in H. exact H. }
  clear H.
  split; [done|]. split; [done|]. split; [lia|]. split; [done|].
  split; [by destruct Hs as [->|[-> _]]|]. split; [exact Hs|].
  destruct (fetched env) as [[[|r rows]|]|];
    [by apply listing_in_single in H'| |by apply listing_in_single in H'
    |by apply listing_in_single in H'].
  apply elem_of_app in H' as [H|H].
  { destruct (bool_decide _) in H.
    - by apply listing_in_single in H.
    - by apply elem_of_nil in H. }
  apply listing_in_single in H.
  destruct (forallb (format_record fromtimestamp)
              (take (Z.to_nat limit) (sort_desc (r :: rows)))) eqn:Hfmt; [|done].
  injection H as <- <-.
  exists (r :: rows). split; [done|]. split; [done|]. split; [done|]. split; [done|].
  assert (length (sort_desc (r :: rows)) = length (r :: rows)) as Hlen.
  { apply Permutation_length, sort_desc_perm. }
  change (insert_desc r (sort_desc rows)) with (sort_desc (r :: rows)) in *.
  rewrite length_take, Hlen. split; [done|]. split; [cbn [length]; lia|exact Hfmt].
Qed.

Lemma listing_well_formed_witness :
  manager (quiet_env [untimed; twin_a; null_time; twin_b]) = true /\
  connected (quiet_env [untimed; twin_a; null_time; twin_b]) = Ok true /\
  (1 <= 3 <= 50)%Z /\
  collection_exists (quiet_env [untimed; twin_a; null_time; twin_b]) = Ok true /\
  session_id_valid (quiet_env [untimed; twin_a; null_time; twin_b]) <> Some (Ok false) /\
  (session_id_valid (quiet_env [untimed; twin_a; null_time; twin_b]) = None \/
   (session_id_valid (quiet_env [untimed; twin_a; null_time; twin_b]) = Some (Ok true) /\
    exists expr,
      expression_built (quiet_env [untimed; twin_a; null_time; twin_b]) = Built expr)) /\
  exists rows,
    fetched (quiet_env [untimed; twin_a; null_time; twin_b]) = Ok (Some rows) /\
    rows <> [] /\
    4 = length rows /\
    [twin_a; twin_b; untimed] = take (Z.to_nat 3) (sort_desc rows) /\
    length [twin_a; twin_b; untimed] = Nat.min (Z.to_nat 3) 4 /\
    1 <= length [twin_a; twin_b; untimed] <= 50 /\
    forallb (format_record every_time) [twin_a; twin_b; untimed] = true.
Proof.
  apply (listing_well_formed 1000 every_time
           (quiet_env [untimed; twin_a; null_time; twin_b]) 3
           4 [twin_a; twin_b; untimed]).
  vm_compute. apply list_elem_of_here.
Defined.


End ListingMore.

(** * More on the migration *)

Section MigrationMore.
Import Commands MigrationSpec MigrationShape Cases.
Local Open Scope gen_scope.

Lemma row_origin_more w r records c :
  row_origin w records c -> row_origin w (r :: records) c.
Proof.
  destruct c; simpl; try done.
  - intros (r' & Hin & H). exists r'. split; [by apply list_elem_of_further|done].
  - intros (r' & Hin & H). exists r'. split; [by apply list_elem_of_further|done].
Qed.

Lemma reembed_record_facts w n i r s0 f0 l :
  exists s f cs rs,
    reembed_record w n i r (s0, f0) l =
      (Value (s, f), Log (calls l ++ cs) (replies l ++ rs)) /\
    Forall (fun c => reembed_call c = true) cs /\
    Forall (row_origin w [r]) cs /\
    embed_count cs = (if has_content r then 1 else 0) /\
    insert_count cs <= embed_count cs /\
    s0 <= s /\ s - s0 <= insert_count cs /\
    s + f = s0 + f0 + embed_count cs.
Proof.
  unfold reembed_record, has_content, try_, bind, invoke, yield, ret.
  generalize (S i mod 10 =? 0)%nat as tick. intros tick.
  destruct l as [cs0 rs0]. cbn [calls replies].
  destruct (content_text r) as [text|] eqn:Ht.
  2:{ exists s0, f0, [], []. rewrite !app_nil_r.
      repeat split; try done; cbn; lia. }
  assert (row_origin w [r] (GetEmbedding text)) as Hg.
  { exists r. split; [apply list_elem_of_here|done]. }
  destruct (get_embedding w i) as [[|e es]|].
  - exists s0, (S f0), [GetEmbedding text], []. rewrite !app_nil_r.
    repeat split; try (by repeat constructor); cbn; lia.
  - assert (row_origin w [r]
              (Insert (InsertRow (get_field (personality_id r) "")
                                 (get_field (session_id r) "") text (e :: es)
                                 (get_field (create_time r) (clock w))))) as Hi.
    { exists r. split; [apply list_elem_of_here|done]. }
    destruct (insert w i) as [[|]|], tick; cbn [calls replies fst snd];
      rewrite <- ?app_assoc; cbn [app].
    + eexists _, _, [_; _], [_]. split; [reflexivity|].
      repeat split; try (by repeat constructor); cbn; lia.
    + eexists _, _, [_; _], []. rewrite app_nil_r. split; [reflexivity|].
      repeat split; try (by repeat constructor); cbn; lia.
    + eexists _, _, [_; _], [_]. split; [reflexivity|].
      repeat split; try (by repeat constructor); cbn; lia.
    + eexists _, _, [_; _], []. rewrite app_nil_r. split; [reflexivity|].
      repeat split; try (by repeat constructor); cbn; lia.
    + eexists _, _, [_; _], []. rewrite app_nil_r. split; [reflexivity|].
      repeat split; try (by repeat constructor); cbn; lia.
    + eexists _, _, [_; _], []. rewrite app_nil_r. split; [reflexivity|].
      repeat split; try (by repeat constructor); cbn; lia.
  - exists s0, (S f0), [GetEmbedding text], []. rewrite !app_nil_r.
    repeat split; try (by repeat constructor); cbn; lia.
Qed.

Lemma embed_count_app l1 l2 : embed_count (l1 ++ l2) = embed_count l1 + embed_count l2.
Proof. unfold embed_count. by rewrite List.filter_app, length_app. Qed.

Lemma insert_count_app l1 l2 : insert_count (l1 ++ l2) = insert_count l1 + insert_count l2.
Proof. unfold insert_count. by rewrite List.filter_app, length_app. Qed.

Lemma reembed_loop_facts w n records : forall i s0 f0 l,
  exists s f cs rs,
    reembed_loop w n i records (s0, f0) l =
      (Value (s, f), Log (calls l ++ cs) (replies l ++ rs)) /\
    Forall (fun c => reembed_call c = true) cs /\
    Forall (row_origin w records) cs /\
    embed_count cs = length (List.filter has_content records) /\
    insert_count cs <= embed_count cs /\
    s0 <= s /\ s - s0 <= insert_count cs /\
    s + f = s0 + f0 + embed_count cs /\
    Forall (fun r => is_progress r = true) rs.
Proof.
  induction records as [|r records IH]; intros i s0 f0 l.
  - exists s0, f0, [], []. destruct l. simpl. rewrite !app_nil_r.
    repeat split; try done; cbn; lia.
  - destruct (reembed_record_facts w n i r s0 f0 l)
      as (s1 & f1 & cs1 & rs1 & E1 & Hc1 & Ho1 & He1 & Hi1 & Hs1 & Hd1 & Hsum1).
    destruct (reembed_record_spec w n i r s0 f0 l)
      as (s1' & f1' & cs1' & rs1' & E1' & _ & _ & Hp1).
    rewrite E1 in E1'. injection E1' as <- <- Ecs Ers.
    apply app_inv_head in Ecs, Ers. subst cs1' rs1'.
    destruct (IH (S i) s1 f1 (Log (calls l ++ cs1) (replies l ++ rs1)))
      as (s & f & cs & rs & E & Hc & Ho & He & Hi & Hs & Hd & Hsum & Hp).
    exists s, f, (cs1 ++ cs)%list, (rs1 ++ rs)%list.
    split.
    { cbn [reembed_loop]. unfold bind at 1. rewrite E1, E. simpl. by rewrite !app_assoc. }
    split; [by apply Forall_app|].
    split.
    { apply Forall_app. split.
      - eapply Forall_impl; [exact Ho1|]. intros c Hc'.
        destruct c; simpl in *; try done.
        + destruct Hc' as (r' & Hin & H). exists r'. split; [|done].
          apply elem_of_cons in Hin as [->|Hin]; [apply list_elem_of_here|].
          by apply elem_of_nil in Hin.
        + destruct Hc' as (r' & Hin & H). exists r'. split; [|done].
          apply elem_of_cons in Hin as [->|Hin]; [apply list_elem_of_here|].
          by apply elem_of_nil in Hin.
      - eapply Forall_impl; [exact Ho|]. intros c. apply row_origin_more. }
    rewrite embed_count_app, insert_count_app.
    split.
    { rewrite He1, He. simpl. destruct (has_content r); simpl; lia. }
    split; [lia|]. split; [lia|]. split; [lia|]. split; [lia|].
    by apply Forall_app.
Qed.

(** The export loop: what it returns is the batches the store answered,
    one after the other, each asked for at the offset the ones before it
    reach; every batch but the last is a full page. *)
Lemma export_loop_batches w fuel : forall n offset acc l records l',
  export_loop w fuel n offset acc l = (Value records, l') ->
  exists batches,
    (forall k b, batches !! k = Some b -> query w (n + k) = Ok b) /\
    records = (acc ++ concat batches)%list /\
    calls l' = (calls l ++ query_calls offset batches)%list /\
    replies l' = replies l /\
    batches <> [] /\
    (forall k b, batches !! k = Some b ->
       if bool_decide (S k = length batches)
       then (Z.of_nat (length b) < batch_size)%Z
       else (batch_size <= Z.of_nat (length b))%Z).
Proof.
  induction fuel as [|fuel IH]; intros n offset acc l records l' H; [done|].
  cbn [export_loop] in H. unfold bind, invoke, ret in H.
  destruct (query w n) as [[|b batch]|] eqn:Hq; cbn -[Z.of_nat Z.ltb length] in H;
    [| |done].
  - injection H as <- <-. exists [[]]. cbn [calls replies].
    split; [intros [|k] b' Hb; [|done]; injection Hb as <-; by rewrite Nat.add_0_r|].
    split; [by rewrite !app_nil_r|]. split; [done|]. split; [done|]. split; [done|].
    intros [|k] b' Hb; [|done]. injection Hb as <-. done.
  - destruct (Z.ltb_spec (Z.of_nat (length (b :: batch))) batch_size) as [Hlt|Hge].
    + injection H as <- <-. exists [b :: batch]. cbn [calls replies].
      split; [intros [|k] b' Hb; [|done]; injection Hb as <-; by rewrite Nat.add_0_r|].
      split; [cbn [concat]; by rewrite app_nil_r|]. split; [done|]. split; [done|].
      split; [done|].
      intros [|k] b' Hb; [|done]. injection Hb as <-. exact Hlt.
    + apply IH in H as (batches & Hans & Hrec & Hcalls & Hrep & Hne & Hfull).
      exists ((b :: batch) :: batches). cbn [calls replies] in *.
      split.
      { intros [|k] b' Hb.
        - injection Hb as <-. by rewrite Nat.add_0_r.
        - replace (n + S k) with (S n + k) by lia. by apply Hans. }
      split; [rewrite Hrec; cbn [concat]; by rewrite app_assoc|].
      split; [rewrite Hcalls, <- app_assoc; done|]. split; [done|]. split; [done|].
      intros [|k] b' Hb.
      * injection Hb as <-. rewrite bool_decide_eq_false_2; [exact Hge|].
        destruct batches; [done|]. cbn [length]. lia.
      * specialize (Hfull k b' Hb). cbn [length].
        destruct (bool_decide_reflect (S k = length batches)).
        -- rewrite bool_decide_eq_true_2 by lia. exact Hfull.
        -- rewrite bool_decide_eq_false_2 by lia. exact Hfull.
Qed.

(** The migration, whatever the collaborators answer: it ends before the
    backup write, or it writes the backup of what the export returned and
    goes on as [migrate_tail] says. *)
Lemma migrate_calls w fuel old d l r l' :
  migrate w fuel old d l = (r, l') ->
  exists cs,
    calls l' = (calls l ++ cs)%list /\
    ((Forall (fun c => export_call c = true) cs /\ r <> Raised) \/
     (exists qs records tail la lb,
        Forall (fun c => export_call c = true) qs /\
        export_loop w fuel 0 0 [] la = (Value records, lb) /\
        cs = (qs ++ WriteBackup old d records :: tail)%list /\
        migrate_tail w d records r (replies l') tail)).
Proof.
  intros H. unfold migrate in H.
  unfold bind at 1 in H. unfold yield at 1 in H.
  destruct (plugin_data_dir w); cbn [negb] in H.
  2:{ unfold bind, yield, return_ in H. simpl in H. injection H as <- <-.
      exists []. split; [by rewrite app_nil_r|]. by left. }
  unfold bind at 1 in H. unfold try_ at 1, invoke at 1 in H.
  destruct (mkdir w); cbn [calls replies] in H.
  2:{ unfold bind, yield, return_ in H. simpl in H. injection H as <- <-.
      exists [Mkdir]. split; [done|]. left. split; [by repeat constructor|done]. }
  unfold bind at 1 in H. unfold yield at 1 in H. cbn [calls replies] in H.
  unfold bind at 1 in H. unfold try_ at 1 in H.
  match type of H with context [export_loop w fuel 0 0 [] ?l0] =>
    destruct (export_loop w fuel 0 0 [] l0) as [r1 l1] eqn:He end.
  pose proof He as He'.
  apply export_loop_spec in He' as (Hr1 & Hret & qs & Hq & Hqs).
  apply query_is_export_call in Hqs.
  destruct l1 as [cs1 rs1]. cbn [calls replies] in Hr1, Hq. subst cs1 rs1.
  destruct r1 as [records| | |]; [| done | |].
  2:{ unfold bind, yield, return_ in H. simpl in H. injection H as <- <-.
      exists (Mkdir :: qs). split; [by rewrite <- ?app_assoc|].
      left. split; [by constructor|done]. }
  2:{ injection H as <- <-. exists (Mkdir :: qs). split; [by rewrite <- ?app_assoc|].
      left. split; [by constructor|done]. }
  assert (forall tail,
            calls l' = ((((calls l ++ [Mkdir]) ++ qs)
                           ++ [WriteBackup old d records]) ++ tail)%list ->
            migrate_tail w d records r (replies l') tail ->
            exists cs,
              calls l' = (calls l ++ cs)%list /\
              ((Forall (fun c => export_call c = true) cs /\ r <> Raised) \/
               (exists qs records tail la lb,
                  Forall (fun c => export_call c = true) qs /\
                  export_loop w fuel 0 0 [] la = (Value records, lb) /\
                  cs = (qs ++ WriteBackup old d records :: tail)%list /\
                  migrate_tail w d records r (replies l') tail))) as Hgo.
  { intros tail Hc Ht.
    exists (Mkdir :: qs ++ WriteBackup old d records :: tail)%list.
    split; [rewrite Hc, <- ?app_assoc; done|]. right.
    eexists (Mkdir :: qs), records, tail, _, _.
    split; [by constructor|]. split; [exact He|]. split; [done|exact Ht]. }
  unfold bind at 1, try_ at 1, bind at 1, invoke at 1 in H.
  destruct (write_backup w) as [[]|] eqn:Hwb; cbn [calls replies] in H.
  2:{ unfold bind, yield, return_ in H. simpl in H. injection H as <- <-.
      apply (Hgo []); [by rewrite app_nil_r|].
      unfold migrate_tail. by rewrite Hwb. }
  unfold yield at 1 in H. cbn [calls replies] in H.
  unfold bind at 1, invoke at 1 in H.
  destruct (drop_collection w) as [[|]|] eqn:Hdc; cbn [calls replies negb] in H.
  2:{ unfold bind, yield, return_ in H. simpl in H. injection H as <- <-.
      apply (Hgo [DropCollection]); [done|].
      unfold migrate_tail. by rewrite Hwb, Hdc. }
  2:{ injection H as <- <-. apply (Hgo [DropCollection]); [done|].
      unfold migrate_tail. by rewrite Hwb, Hdc. }
  unfold bind at 1, yield at 1 in H. cbn [calls replies] in H.
  unfold bind at 1, invoke at 1 in H.
  destruct (setup_collection w) as [[]|] eqn:Hsc; cbn [calls replies] in H.
  2:{ injection H as <- <-.
      apply (Hgo [DropCollection; SetupCollection d]); [by rewrite <- ?app_assoc|].
      unfold migrate_tail. by rewrite Hwb, Hdc, Hsc. }
  unfold bind at 1, yield at 1 in H. cbn [calls replies] in H.
  destruct records as [|r0 records].
  { unfold yield in H. injection H as <- <-.
    apply (Hgo [DropCollection; SetupCollection d]); [by rewrite <- ?app_assoc|].
    unfold migrate_tail. by rewrite Hwb, Hdc, Hsc. }
  unfold bind at 1, yield at 1 in H. cbn [calls replies] in H.
  unfold bind at 1 in H.
  match type of H with context [reembed_loop w ?n 0 ?rs (0, 0) ?l0] =>
    destruct (reembed_loop_facts w n rs 0 0 0 l0)
      as (s & f & es & ps & E & Hc & Ho & Hemb & Hins & _ & Hsucc & Hsum & Hps)
  end.
  rewrite E in H. cbn [calls replies] in H.
  unfold bind at 1, invoke at 1 in H.
  assert (loop_facts w (r0 :: records) s f es) as Hfacts.
  { unfold loop_facts. repeat split; try done; lia. }
  destruct (flush w) as [[]|] eqn:Hf; cbn [calls replies fst snd] in H.
  - unfold yield in H. injection H as <- <-.
    apply (Hgo (DropCollection :: SetupCollection d :: es ++ [Flush])%list).
    + cbn [calls]. by rewrite <- ?app_assoc.
    + unfold migrate_tail. rewrite Hwb, Hdc, Hsc, Hf.
      exists es, s, f. split; [done|]. split; [done|]. split; [done|].
      cbn [replies]. by rewrite last_snoc.
  - injection H as <- <-.
    apply (Hgo (DropCollection :: SetupCollection d :: es ++ [Flush])%list).
    + cbn [calls]. by rewrite <- ?app_assoc.
    + unfold migrate_tail. rewrite Hwb, Hdc, Hsc, Hf. exists es, s, f. done.
Qed.

(** The runs of the command, with the way they end: no exception leaves
    the command, and the migration is entered only with the force token. *)
Lemma run_shape w force fuel r lg :
  init_memory_system_cmd_impl w force fuel empty_log = (r, lg) ->
  r <> Raised /\
  (Forall (fun c => prelude_call c = true) (calls lg) \/
   (exists pre d,
      Forall (fun c => prelude_call c = true) pre /\
      has_collection w = Ok false /\
      calls lg = (pre ++ [SetupCollection d])%list) \/
   (exists l0 old d r1 l1,
      force = Some "--force" /\
      Forall (fun c => prelude_call c = true) (calls l0) /\
      has_collection w = Ok true /\
      migrate w fuel old d l0 = (r1, l1) /\
      calls lg = calls l1 /\
      ((r1 = Raised /\ r = Value tt /\ replies lg = (replies l1 ++ [InitFailed])%list) \/
       (r1 <> Raised /\ r = r1 /\ replies lg = replies l1)))).
Proof.
  intros H. unfold init_memory_system_cmd_impl in H.
  unfold bind at 1 in H.
  destruct (connect w empty_log) as [rc lc] eqn:Hc.
  apply connect_spec in Hc as [Hrc (cs0 & Hcs0 & Hpre0)].
  assert (Forall (fun c => prelude_call c = true) (calls lc)) as Hlc.
  { rewrite Hcs0. by apply Forall_app. }
  clear cs0 Hcs0 Hpre0.
  destruct Hrc as [->| ->].
  2:{ injection H as <- <-. split; [done|]. by left. }
  unfold try_ at 1, bind at 1 in H.
  destruct (probe_dimension w lc) as [rp lp] eqn:Hp.
  apply probe_dimension_spec in Hp as [Hrp (cs1 & Hcs1 & Hpre1)].
  assert (Forall (fun c => prelude_call c = true) (calls lp)) as Hlp.
  { rewrite Hcs1. by apply Forall_app. }
  clear cs1 Hcs1 Hpre1.
  destruct Hrp as [(d & -> & Hd & _)| ->].
  2:{ injection H as <- <-. split; [done|]. by left. }
  unfold bind at 1, invoke at 1 in H.
  destruct (has_collection w) as [[|]|] eqn:Hh; cbn [calls replies] in H.
  - unfold bind at 1, invoke at 1 in H.
    destruct (get_collection w) as [collection|]; cbn [calls replies] in H.
    2:{ unfold yield in H. injection H as <- <-. split; [done|]. left. cbn [calls].
        rewrite <- app_assoc. apply Forall_app. split; [done|]. by repeat constructor. }
    destruct (compare_dimension collection d) as [[|] old].
    + destruct (bool_decide_reflect (force = Some "--force")) as [Hforce|Hforce];
        cbn [negb] in H.
      * match type of H with context [migrate w fuel old d ?l0] =>
          destruct (migrate w fuel old d l0) as [r1 l1] eqn:Hm;
          assert (Forall (fun c => prelude_call c = true) (calls l0)) as Hl0
        end.
        { cbn [calls]. rewrite <- app_assoc. apply Forall_app.
          split; [done|]. by repeat constructor. }
        destruct r1; unfold yield in H; injection H as <- <-; (split; [done|]);
          right; right; eexists _, old, d, _, l1;
          (split; [done|]); (split; [exact Hl0|]); (split; [done|]);
          (split; [exact Hm|]); (split; [done|]);
          first [ by left | by right ].
      * unfold bind, yield, return_ in H. simpl in H. injection H as <- <-.
        split; [done|]. left. cbn [calls].
        rewrite <- app_assoc. apply Forall_app. split; [done|]. by repeat constructor.
    + unfold yield in H. injection H as <- <-. split; [done|]. left. cbn [calls].
      rewrite <- app_assoc. apply Forall_app. split; [done|]. by repeat constructor.
  - unfold bind at 1, yield at 1 in H. cbn [calls replies] in H.
    unfold bind at 1, invoke at 1 in H.
    destruct (setup_collection w) as [[]|]; unfold yield in H; injection H as <- <-;
      (split; [done|]); right; left; exists (calls lp ++ [HasCollection])%list, d;
      (split; [apply Forall_app; split; [done|by repeat constructor]|]); done.
  - unfold yield in H. injection H as <- <-. split; [done|]. left. cbn [calls].
    apply Forall_app. split; [done|]. by repeat constructor.
Qed.

(** The calls after the backup write, read off [migrate_tail] *)
Lemma migrate_tail_inv w d records r rs tail :
  migrate_tail w d records r rs tail ->
  (tail = [] /\ write_backup w = Err) \/
  (write_backup w = Ok tt /\
   exists tail', tail = DropCollection :: tail' /\
     ((tail' = [] /\ drop_collection w <> Ok true) \/
      (drop_collection w = Ok true /\
       exists es, tail' = SetupCollection d :: es /\
         (es = [] \/
          (setup_collection w = Ok tt /\ records <> [] /\
           exists es' s f,
             es = (es' ++ [Flush])%list /\ loop_facts w records s f es' /\
             (flush w = Ok tt -> r = Value tt /\ last rs = Some (MigrationDone s f d))))))).
Proof.
  unfold migrate_tail. intros H.
  destruct (write_backup w) as [[]|]; [|left; by destruct H].
  right. split; [done|].
  destruct (drop_collection w) as [[|]|].
  - destruct (setup_collection w) as [[]|].
    + destruct records as [|r0 records].
      * destruct H as [-> _]. eexists. split; [done|]. right. split; [done|].
        eexists. split; [done|]. by left.
      * destruct H as (es & s & f & -> & Hfacts & Hend).
        eexists. split; [done|]. right. split; [done|].
        eexists. split; [done|]. right. split; [done|]. split; [done|].
        exists es, s, f. split; [done|]. split; [done|].
        intros Hf. by rewrite Hf in Hend.
    + destruct H as [-> _]. eexists. split; [done|]. right. split; [done|].
      eexists. split; [done|]. by left.
  - destruct H as [-> _]. eexists. split; [done|]. by left.
  - destruct H as [-> _]. eexists. split; [done|]. by left.
Qed.

(** The calls of a whole run, in the order made. *)
Lemma run_calls w force fuel r lg :
  init_memory_system_cmd_impl w force fuel empty_log = (r, lg) ->
  Forall (fun c => prelude_call c = true) (calls lg) \/
  (exists pre d,
     Forall (fun c => prelude_call c = true) pre /\
     has_collection w = Ok false /\
     calls lg = (pre ++ [SetupCollection d])%list) \/
  (force = Some "--force" /\ has_collection w = Ok true /\
   exists pre qs,
     Forall (fun c => prelude_call c = true) pre /\
     Forall (fun c => export_call c = true) qs /\
     (calls lg = (pre ++ qs)%list \/
      exists old d records tail r1 rs,
        calls lg = (pre ++ qs ++ WriteBackup old d records :: tail)%list /\
        (exists la lb, export_loop w fuel 0 0 [] la = (Value records, lb)) /\
        migrate_tail w d records r1 rs tail /\
        ((r1 = Raised /\ r = Value tt /\ replies lg = (rs ++ [InitFailed])%list) \/
         (r1 <> Raised /\ r = r1 /\ replies lg = rs)))).
Proof.
  intros H. apply run_shape in H as [_ H].
  destruct H as [H|[H|(l0 & old & d & r1 & l1 & Hf & Hpre & Hh & Hm & Hc & Hr)]];
    [by left|by right; left|].
  right; right. split; [done|]. split; [done|].
  apply migrate_calls in Hm as (cs & Hcs & Hshape).
  destruct Hshape as [[Hexp _]|(qs & records & tail & la & lb & Hqs & He & -> & Ht)].
  - exists (calls l0), cs. split; [done|]. split; [done|]. left. by rewrite Hc, Hcs.
  - exists (calls l0), qs. split; [done|]. split; [done|]. right.
    exists old, d, records, tail, r1, (replies l1).
    split; [by rewrite Hc, Hcs|]. split; [by eauto|]. split; [done|]. done.
Qed.

Lemma prelude_not_drop c : prelude_call c = true -> is_drop c = false.
Proof. by destruct c. Qed.

Lemma export_not_drop c : export_call c = true -> is_drop c = false.
Proof. by destruct c. Qed.

Lemma reembed_not_drop c : reembed_call c = true -> is_drop c = false.
Proof. by destruct c. Qed.

Lemma Forall_false_elem {A} (P Q : A -> bool) (l : list A) (x : A) :
  (forall c, P c = true -> Q c = false) ->
  Forall (fun c => P c = true) l -> x ∈ l -> Q x = false.
Proof. intros HPQ H Hx. apply HPQ. by eapply Forall_true_elem. Qed.

(** X12: without the force token the command changes nothing: it neither
    exports nor writes a backup nor drops, inserts or flushes; the only
    call that is not a read is the creation of a collection that does not
    exist. *)
Theorem no_force_no_migration
    (w : world) (force : option string) (fuel : nat) (r : res unit) (lg : log) :
  force <> Some "--force" ->
  init_memory_system_cmd_impl w force fuel empty_log = (r, lg) ->
  forall c, c ∈ calls lg ->
    prelude_call c = true \/
    (has_collection w = Ok false /\ exists d, c = SetupCollection d).
Proof.
  intros Hforce H c Hc.
  destruct (run_calls w force fuel r lg H) as [Hpre|[(pre & d & Hpre & Hh & Hcs)|(Hf & _)]];
    [| |done].
  - left. by eapply Forall_true_elem.
  - rewrite Hcs in Hc. apply elem_of_app in Hc as [Hc|Hc].
    + left. by eapply Forall_true_elem.
    + right. split; [done|]. exists d.
      apply elem_of_cons in Hc as [->|Hc]; [done|]. by apply elem_of_nil in Hc.
Qed.

Lemma no_force_no_migration_witness :
  prelude_call GetCollection = true \/
  (has_collection (resized_world [greeting; blank] (Ok tt)) = Ok false /\
   exists d, GetCollection = SetupCollection d).
Proof.
  apply (no_force_no_migration (resized_world [greeting; blank] (Ok tt)) None 1
           Returned
           (Log [IsConnected; HasCollection; GetCollection]
                [MismatchNeedsForce (Some 768%Z) 1024])).
  - discriminate.
  - vm_compute. reflexivity.
  - cbn [calls]. do 2 apply list_elem_of_further. apply list_elem_of_here.
Defined.

(** The migration runs out of fuel only in its export loop. *)
Lemma migrate_out_of_fuel w fuel old d l l' :
  migrate w fuel old d l = (OutOfFuel, l') ->
  exists la, fst (export_loop w fuel 0 0 [] la) = OutOfFuel.
Proof.
  intros H. unfold migrate in H.
  unfold bind at 1 in H. unfold yield at 1 in H.
  destruct (plugin_data_dir w); cbn [negb] in H.
  2:{ unfold bind, yield, return_ in H. simpl in H. done. }
  unfold bind at 1 in H. unfold try_ at 1, invoke at 1 in H.
  destruct (mkdir w); cbn [calls replies] in H.
  2:{ unfold bind, yield, return_ in H. simpl in H. done. }
  unfold bind at 1 in H. unfold yield at 1 in H. cbn [calls replies] in H.
  unfold bind at 1 in H. unfold try_ at 1 in H.
  match type of H with context [export_loop w fuel 0 0 [] ?l0] =>
    destruct (export_loop w fuel 0 0 [] l0) as [r1 l1] eqn:He; exists l0 end.
  rewrite He. cbn [fst].
  destruct r1 as [records| | |]; [|done| |done].
  2:{ unfold bind, yield, return_ in H. simpl in H. done. }
  exfalso.
  unfold bind at 1, try_ at 1, bind at 1, invoke at 1 in H.
  destruct (write_backup w) as [[]|]; cbn [calls replies] in H.
  2:{ unfold bind, yield, return_ in H. simpl in H. done. }
  unfold yield at 1 in H. cbn [calls replies] in H.
  unfold bind at 1, invoke at 1 in H.
  destruct (drop_collection w) as [[|]|]; cbn [calls replies negb] in H.
  2:{ unfold bind, yield, return_ in H. simpl in H. done. }
  2:{ done. }
  unfold bind at 1, yield at 1 in H. cbn [calls replies] in H.
  unfold bind at 1, invoke at 1 in H.
  destruct (setup_collection w) as [[]|]; cbn [calls replies] in H; [|done].
  unfold bind at 1, yield at 1 in H. cbn [calls replies] in H.
  destruct records as [|r0 records]; [unfold yield in H; done|].
  unfold bind at 1, yield at 1 in H. cbn [calls replies] in H.
  unfold bind at 1 in H.
  match type of H with context [reembed_loop w ?n 0 ?rs (0, 0) ?l0] =>
    destruct (reembed_loop_spec w n rs 0 0 0 l0) as (s & f & es & ps & E & _)
  end.
  rewrite E in H. cbn [calls replies] in H.
  unfold bind at 1, invoke at 1 in H.
  destruct (flush w) as [[]|]; cbn [calls replies fst snd] in H; [|done].
  unfold yield in H. done.
Qed.

(** The command runs out of fuel only in the export loop of a migration. *)
Lemma run_out_of_fuel w force fuel lg :
  init_memory_system_cmd_impl w force fuel empty_log = (OutOfFuel, lg) ->
  exists la, fst (export_loop w fuel 0 0 [] la) = OutOfFuel.
Proof.
  intros H. unfold init_memory_system_cmd_impl in H.
  unfold bind at 1 in H.
  destruct (connect w empty_log) as [rc lc] eqn:Hc.
  apply connect_spec in Hc as [[->| ->] _]; [|done].
  unfold try_ at 1, bind at 1 in H.
  destruct (probe_dimension w lc) as [rp lp] eqn:Hp.
  apply probe_dimension_spec in Hp as [[(d & -> & _)| ->] _]; [|done].
  unfold bind at 1, invoke at 1 in H.
  destruct (has_collection w) as [[|]|]; cbn [calls replies] in H.
  - unfold bind at 1, invoke at 1 in H.
    destruct (get_collection w) as [collection|]; cbn [calls replies] in H;
      [|unfold yield in H; done].
    destruct (compare_dimension collection d) as [[|] old]; [|unfold yield in H; done].
    destruct (bool_decide (force = Some "--force")); cbn [negb] in H;
      [|unfold bind, yield, return_ in H; simpl in H; done].
    match type of H with context [migrate w fuel old d ?l0] =>
      destruct (migrate w fuel old d l0) as [r1 l1] eqn:Hm end.
    destruct r1; unfold yield in H; try done.
    by apply migrate_out_of_fuel in Hm.
  - unfold bind at 1, yield at 1 in H. cbn [calls replies] in H.
    unfold bind at 1, invoke at 1 in H.
    destruct (setup_collection w) as [[]|]; unfold yield in H; done.
  - unfold yield in H. done.
Qed.

(** X13: when the store answers the export with a short page, an empty
    one or an exception within the rounds allowed, the command ends, by
    itself or by [return]: no exception leaves it, whatever the other
    collaborators answer or raise. *)
Theorem command_never_raises (w : world) (force : option string) (fuel k : nat) :
  k < fuel ->
  ends_export (query w k) = true ->
  fst (init_memory_system_cmd_impl w force fuel empty_log) = Value tt \/
  fst (init_memory_system_cmd_impl w force fuel empty_log) = Returned.
Proof.
  intros Hk He.
  destruct (init_memory_system_cmd_impl w force fuel empty_log) as [r lg] eqn:H.
  cbn [fst]. destruct r as [[]| | |]; [by left|by right| |].
  - by apply run_shape in H as [H _].
  - exfalso. apply run_out_of_fuel in H as [la H].
    by apply (export_loop_ends w k fuel 0 0 [] la Hk He).
Qed.

Lemma command_never_raises_witness :
  fst (init_memory_system_cmd_impl (resized_world [greeting; blank] (Ok tt))
         (Some "--force") 1 empty_log) = Value tt \/
  fst (init_memory_system_cmd_impl (resized_world [greeting; blank] (Ok tt))
         (Some "--force") 1 empty_log) = Returned.
Proof.
  apply (command_never_raises (resized_world [greeting; blank] (Ok tt))
           (Some "--force") 1 0).
  - lia.
  - vm_compute. reflexivity.
Defined.

(** What follows the drop holds no second drop. *)
Lemma after_drop_no_drop w d records r rs tail' :
  migrate_tail w d records r rs (DropCollection :: tail') ->
  Forall (fun c => is_drop c = false) tail'.
Proof.
  intros H. apply migrate_tail_inv in H as [[? _]|(_ & t & E & H)]; [done|].
  injection E as <-.
  destruct H as [[-> _]|(_ & es & -> & [->|(_ & _ & es' & s & f & -> & Hfacts & _)])].
  - constructor.
  - by repeat constructor.
  - constructor; [done|]. apply Forall_app. split; [|by repeat constructor].
    destruct Hfacts as (Hes & _).
    eapply Forall_impl; [exact Hes|]. apply reembed_not_drop.
Qed.

(** X14: the old collection is dropped at most once, only with the force
    token, and only right after the backup of the exported records was
    written successfully. *)
Theorem drop_follows_backup
    (w : world) (force : option string) (fuel : nat) (r : res unit) (lg : log) :
  init_memory_system_cmd_impl w force fuel empty_log = (r, lg) ->
  DropCollection ∈ calls lg ->
  force = Some "--force" /\
  has_collection w = Ok true /\
  write_backup w = Ok tt /\
  exists before old d records after,
    calls lg = (before ++ WriteBackup old d records :: DropCollection :: after)%list /\
    Forall (fun c => is_drop c = false) before /\
    Forall (fun c => is_drop c = false) after.
Proof.
  intros H Hin.
  destruct (run_calls w force fuel r lg H)
    as [Hpre|[(pre & d & Hpre & Hh & Hcs)
             |(Hf & Hh & pre & qs & Hpre & Hqs & [Hcs|Hcs])]].
  - by apply (Forall_true_elem _ _ _ Hpre) in Hin.
  - rewrite Hcs in Hin. apply elem_of_app in Hin as [Hin|Hin].
    + by apply (Forall_true_elem _ _ _ Hpre) in Hin.
    + apply elem_of_cons in Hin as [?|Hin]; [done|]. by apply elem_of_nil in Hin.
  - rewrite Hcs in Hin. apply elem_of_app in Hin as [Hin|Hin].
    + by apply (Forall_true_elem _ _ _ Hpre) in Hin.
    + by apply (Forall_true_elem _ _ _ Hqs) in Hin.
  - destruct Hcs as (old & d & records & tail & r1 & rs & Hcs & _ & Ht & _).
    pose proof Ht as Ht'.
    apply migrate_tail_inv in Ht' as [[-> _]|(Hw & tail' & -> & _)].
    + rewrite Hcs, !elem_of_app in Hin. destruct Hin as [Hin|[Hin|Hin]].
      * by apply (Forall_true_elem _ _ _ Hpre) in Hin.
      * by apply (Forall_true_elem _ _ _ Hqs) in Hin.
      * apply elem_of_cons in Hin as [?|Hin]; [done|]. by apply elem_of_nil in Hin.
    + split; [done|]. split; [done|]. split; [done|].
      exists (pre ++ qs)%list, old, d, records, tail'.
      split; [by rewrite Hcs, <- app_assoc|]. split.
      * apply Forall_app. split.
        -- eapply Forall_impl; [exact Hpre|]. apply prelude_not_drop.
        -- eapply Forall_impl; [exact Hqs|]. apply export_not_drop.
      * by eapply after_drop_no_drop.
Qed.

Lemma drop_follows_backup_witness :
  exists before old d records after,
    calls (snd (init_memory_system_cmd_impl (resized_world [greeting; blank] (Ok tt))
                  (Some "--force") 1 empty_log)) =
      (before ++ WriteBackup old d records :: DropCollection :: after)%list /\
    Forall (fun c => is_drop c = false) before /\
    Forall (fun c => is_drop c = false) after.
Proof.
  rewrite resized_run.
  apply (drop_follows_backup (resized_world [greeting; blank] (Ok tt))
           (Some "--force") 1 _ _ resized_run).
  cbn [calls]. do 6 apply list_elem_of_further. apply list_elem_of_here.
Defined.

(** X15: a collection is created only when none existed, or after the old
    one was dropped successfully (its backup written). *)
Theorem create_needs_absent_or_dropped
    (w : world) (force : option string) (fuel : nat) (r : res unit) (lg : log) (d : Z) :
  init_memory_system_cmd_impl w force fuel empty_log = (r, lg) ->
  SetupCollection d ∈ calls lg ->
  has_collection w = Ok false \/
  (has_collection w = Ok true /\ write_backup w = Ok tt /\
   drop_collection w = Ok true /\ DropCollection ∈ calls lg).
Proof.
  intros H Hin.
  destruct (run_calls w force fuel r lg H)
    as [Hpre|[(pre & d' & Hpre & Hh & Hcs)
             |(Hf & Hh & pre & qs & Hpre & Hqs & [Hcs|Hcs])]].
  - by apply (Forall_true_elem _ _ _ Hpre) in Hin.
  - by left.
  - rewrite Hcs in Hin. apply elem_of_app in Hin as [Hin|Hin].
    + by apply (Forall_true_elem _ _ _ Hpre) in Hin.
    + by apply (Forall_true_elem _ _ _ Hqs) in Hin.
  - destruct Hcs as (old & d' & records & tail & r1 & rs & Hcs & _ & Ht & _).
    right. split; [done|].
    apply migrate_tail_inv in Ht as [[-> _]|(Hw & tail' & -> & Ht)].
    + rewrite Hcs, !elem_of_app in Hin. destruct Hin as [Hin|[Hin|Hin]].
      * by apply (Forall_true_elem _ _ _ Hpre) in Hin.
      * by apply (Forall_true_elem _ _ _ Hqs) in Hin.
      * apply elem_of_cons in Hin as [?|Hin]; [done|]. by apply elem_of_nil in Hin.
    + split; [done|].
      assert (DropCollection ∈ calls lg) as Hdrop.
      { rewrite Hcs, !elem_of_app. right; right.
        apply list_elem_of_further, list_elem_of_here. }
      destruct Ht as [[-> _]|(Hd & _)]; [|done].
      rewrite Hcs, !elem_of_app in Hin. destruct Hin as [Hin|[Hin|Hin]].
      * by apply (Forall_true_elem _ _ _ Hpre) in Hin.
      * by apply (Forall_true_elem _ _ _ Hqs) in Hin.
      * apply elem_of_cons in Hin as [?|Hin]; [done|].
        apply elem_of_cons in Hin as [?|Hin]; [done|]. by apply elem_of_nil in Hin.
Qed.

Lemma create_needs_absent_or_dropped_witness :
  has_collection (resized_world [greeting; blank] (Ok tt)) = Ok false \/
  (has_collection (resized_world [greeting; blank] (Ok tt)) = Ok true /\
   write_backup (resized_world [greeting; blank] (Ok tt)) = Ok tt /\
   drop_collection (resized_world [greeting; blank] (Ok tt)) = Ok true /\
   DropCollection ∈
     calls (snd (init_memory_system_cmd_impl (resized_world [greeting; blank] (Ok tt))
                   (Some "--force") 1 empty_log))).
Proof.
  rewrite resized_run.
  apply (create_needs_absent_or_dropped (resized_world [greeting; blank] (Ok tt))
           (Some "--force") 1 _ _ 1024 resized_run).
  cbn [calls]. do 7 apply list_elem_of_further. apply list_elem_of_here.
Defined.

(** The calls after the backup write, one by one. *)
Lemma migrate_tail_calls w d records r rs tail :
  migrate_tail w d records r rs tail ->
  Forall (fun c => c = DropCollection \/ c = SetupCollection d \/ c = Flush \/
                   (reembed_call c = true /\ row_origin w records c /\
                    write_backup w = Ok tt /\ drop_collection w = Ok true)) tail.
Proof.
  intros H. apply migrate_tail_inv in H as [[-> _]|(Hw & t & -> & H)]; [constructor|].
  constructor; [by left|].
  destruct H as [[-> _]|(Hd & es & -> & [->|(_ & _ & es' & s & f & -> & Hfacts & _)])].
  - constructor.
  - constructor; [by right; left|constructor].
  - constructor; [by right; left|]. apply Forall_app. split.
    + destruct Hfacts as (Hes & Horigin & _).
      apply Forall_forall. intros c Hc. right; right; right.
      split; [by apply (Forall_true_elem _ _ _ Hes)|].
      split; [|done]. by apply (proj1 (Forall_forall _ _) Horigin).
    + constructor; [by right; right; left|constructor].
Qed.

(** A call that is neither of the prelude, nor of the export, nor a
    creation, is made by a migration that reached its backup write. *)
Lemma run_migrating w force fuel r lg c :
  init_memory_system_cmd_impl w force fuel empty_log = (r, lg) ->
  c ∈ calls lg ->
  prelude_call c = false -> export_call c = false ->
  (forall d, c <> SetupCollection d) ->
  exists pre qs old d records tail r1 rs,
    calls lg = (pre ++ qs ++ WriteBackup old d records :: tail)%list /\
    Forall (fun c => prelude_call c = true) pre /\
    Forall (fun c => export_call c = true) qs /\
    (exists la lb, export_loop w fuel 0 0 [] la = (Value records, lb)) /\
    migrate_tail w d records r1 rs tail /\
    (c = WriteBackup old d records \/ c ∈ tail).
Proof.
  intros H Hin Hp He Hs.
  destruct (run_calls w force fuel r lg H)
    as [Hpre|[(pre & d & Hpre & Hh & Hcs)
             |(Hf & Hh & pre & qs & Hpre & Hqs & [Hcs|Hcs])]].
  - apply (Forall_true_elem _ _ _ Hpre) in Hin. congruence.
  - rewrite Hcs in Hin. apply elem_of_app in Hin as [Hin|Hin].
    + apply (Forall_true_elem _ _ _ Hpre) in Hin. congruence.
    + apply elem_of_cons in Hin as [->|Hin]; [by destruct (Hs d)|].
      by apply elem_of_nil in Hin.
  - rewrite Hcs in Hin. apply elem_of_app in Hin as [Hin|Hin].
    + apply (Forall_true_elem _ _ _ Hpre) in Hin. congruence.
    + apply (Forall_true_elem _ _ _ Hqs) in Hin. congruence.
  - destruct Hcs as (old & d & records & tail & r1 & rs & Hcs & Hexp & Ht & _).
    exists pre, qs, old, d, records, tail, r1, rs.
    repeat (split; [done|]).
    rewrite Hcs, !elem_of_app in Hin. destruct Hin as [Hin|[Hin|Hin]].
    + apply (Forall_true_elem _ _ _ Hpre) in Hin. congruence.
    + apply (Forall_true_elem _ _ _ Hqs) in Hin. congruence.
    + apply elem_of_cons in Hin as [->|Hin]; [by left|by right].
Qed.

Lemma filter_none {A} (P : A -> bool) (l : list A) :
  Forall (fun c => P c = false) l -> List.filter P l = [].
Proof.
  induction 1 as [|c l Hc _ IH]; [done|]. simpl. by rewrite Hc.
Qed.

Lemma prelude_not_reembed c : prelude_call c = true -> reembed_call c = false.
Proof. by destruct c. Qed.

Lemma export_not_reembed c : export_call c = true -> reembed_call c = false.
Proof. by destruct c. Qed.

Lemma not_reembed_not_embed c : reembed_call c = false -> is_embed c = false.
Proof. by destruct c. Qed.

Lemma not_reembed_not_insert c : reembed_call c = false -> is_insert c = false.
Proof. by destruct c. Qed.

Lemma embed_count_none l :
  Forall (fun c => reembed_call c = false) l -> embed_count l = 0.
Proof.
  intros H. unfold embed_count. rewrite filter_none; [done|].
  eapply Forall_impl; [exact H|]. apply not_reembed_not_embed.
Qed.

Lemma insert_count_none l :
  Forall (fun c => reembed_call c = false) l -> insert_count l = 0.
Proof.
  intros H. unfold insert_count. rewrite filter_none; [done|].
  eapply Forall_impl; [exact H|]. apply not_reembed_not_insert.
Qed.

(** X16: when the store has no collection yet, the command creates one of
    the provider's dimension, for any second argument: the creation is
    its last and only writing call, it ends normally, and it replies that
    the collection is ready, or that the initialisation failed when the
    creation raised. *)
Theorem absent_collection_created
    (w : world) (force : option string) (fuel : nat) (d : Z) :
  milvus_manager w = true ->
  is_connected w = Ok true \/ (is_connected w = Ok false /\ list_collections w = Ok tt) ->
  provider_ready w = true ->
  (0 < d)%Z ->
  embedding_dim w = Ok (Some d) \/
    (exists d0, embedding_dim w = Ok d0 /\ falsy_dim d0 = true /\
                get_dim w = Some (Ok (Some d))) ->
  has_collection w = Ok false ->
  exists lg pre,
    init_memory_system_cmd_impl w force fuel empty_log = (Value tt, lg) /\
    calls lg = (pre ++ [SetupCollection d])%list /\
    Forall (fun c => prelude_call c = true) pre /\
    replies lg = match setup_collection w with
                 | Ok _ => [CreatingCollection; CollectionReady d]
                 | Err => [CreatingCollection; InitFailed]
                 end.
Proof.
  intros Hmm Hconn Hready Hd Hdim Hhas.
  destruct (connect_succeeds w empty_log Hmm Hconn) as (cs0 & Ec & Hcs0).
  destruct (probe_dimension_succeeds w (Log (calls empty_log ++ cs0) (replies empty_log))
              d Hready Hd Hdim) as (cs1 & Ep & Hcs1).
  unfold init_memory_system_cmd_impl.
  unfold bind at 1. rewrite Ec.
  unfold try_ at 1, bind at 1. rewrite Ep.
  unfold bind at 1, invoke at 1. rewrite Hhas. cbn [calls replies].
  unfold bind, yield, invoke. cbn [calls replies empty_log app].
  assert (Forall (fun c => prelude_call c = true) ((cs0 ++ cs1) ++ [HasCollection]))
    as Hall.
  { repeat (apply Forall_app; split); try done; by repeat constructor. }
  destruct (setup_collection w) as [[]|]; cbn [calls replies app];
    eexists; exists ((cs0 ++ cs1) ++ [HasCollection])%list;
    (split; [reflexivity|]); cbn [calls replies]; by repeat split.
Qed.

Lemma absent_collection_created_witness :
  exists lg pre,
    init_memory_system_cmd_impl fresh_world None 0 empty_log = (Value tt, lg) /\
    calls lg = (pre ++ [SetupCollection 1024])%list /\
    Forall (fun c => prelude_call c = true) pre /\
    replies lg = [CreatingCollection; CollectionReady 1024].
Proof.
  apply (absent_collection_created fresh_world None 0 1024).
  - reflexivity.
  - right. split; reflexivity.
  - reflexivity.
  - lia.
  - right. exists None. repeat split; reflexivity.
  - reflexivity.
Defined.

(** X17: the backup is written at most once and before any call that
    changes the store, and what it holds is all the export fetched: the
    answers of the store to the successive queries, in order, each but
    the last a full batch and the last a short one. *)
Theorem backup_holds_all_batches
    (w : world) (force : option string) (fuel : nat) (r : res unit) (lg : log)
    (old : option Z) (d : Z) (records : list record) :
  init_memory_system_cmd_impl w force fuel empty_log = (r, lg) ->
  WriteBackup old d records ∈ calls lg ->
  exists batches,
    batches <> [] /\
    records = concat batches /\
    (forall k b, batches !! k = Some b ->
       query w k = Ok b /\
       if bool_decide (S k = length batches)
       then (Z.of_nat (length b) < batch_size)%Z
       else (batch_size <= Z.of_nat (length b))%Z) /\
    exists before after,
      calls lg = (before ++ WriteBackup old d records :: after)%list /\
      Forall (fun c => mutating c = false) before /\
      Forall (fun c => forall o d' rs, c <> WriteBackup o d' rs) (before ++ after).
Proof.
  intros H Hin.
  destruct (run_migrating w force fuel r lg _ H Hin eq_refl eq_refl ltac:(done))
    as (pre & qs & old' & d' & records' & tail & r1 & rs & Hcs & Hpre & Hqs &
        (la & lb & Hexp) & Ht & Hc).
  pose proof (migrate_tail_calls _ _ _ _ _ _ Ht) as Htail.
  destruct Hc as [E|Hc].
  2:{ apply (proj1 (Forall_forall _ _) Htail) in Hc.
      destruct Hc as [?|[?|[?|(? & _)]]]; done. }
  injection E as <- <- <-.
  destruct (export_loop_batches w fuel 0 0 [] la records lb Hexp)
    as (batches & Hq & -> & _ & _ & Hne & Hsz).
  exists batches. split; [done|]. split; [done|]. split.
  { intros k b Hk. split; [by apply (Hq k b)|by apply Hsz]. }
  exists (pre ++ qs)%list, tail. split; [by rewrite Hcs, <- app_assoc|]. split.
  - apply Forall_app. split.
    + eapply Forall_impl; [exact Hpre|]. apply prelude_not_mutating.
    + eapply Forall_impl; [exact Hqs|]. apply export_not_mutating.
  - repeat (apply Forall_app; split).
    + eapply Forall_impl; [exact Hpre|]. intros c Hc o d' rs' ->. done.
    + eapply Forall_impl; [exact Hqs|]. intros c Hc o d' rs' ->. done.
    + eapply Forall_impl; [exact Htail|].
      intros c [?|[?|[?|(? & _)]]] o d' rs' ->; done.
Qed.

Lemma backup_holds_all_batches_witness :
  exists batches,
    batches <> [] /\
    [greeting; blank] = concat batches /\
    (forall k b, batches !! k = Some b ->
       query (resized_world [greeting; blank] (Ok tt)) k = Ok b /\
       if bool_decide (S k = length batches)
       then (Z.of_nat (length b) < batch_size)%Z
       else (batch_size <= Z.of_nat (length b))%Z) /\
    exists before after,
      calls (snd (init_memory_system_cmd_impl (resized_world [greeting; blank] (Ok tt))
                    (Some "--force") 1 empty_log)) =
        (before ++ WriteBackup (Some 768%Z) 1024 [greeting; blank] :: after)%list /\
      Forall (fun c => mutating c = false) before /\
      Forall (fun c => forall o d' rs, c <> WriteBackup o d' rs) (before ++ after).
Proof.
  rewrite resized_run.
  apply (backup_holds_all_batches (resized_world [greeting; blank] (Ok tt))
           (Some "--force") 1 _ _ (Some 768%Z) 1024 [greeting; blank] resized_run).
  cbn [calls]. do 5 apply list_elem_of_further. apply list_elem_of_here.
Defined.

(** X18: every row inserted into the new collection is a backed-up record
    given a fresh vector: its text, persona and session are those of a
    record of the backup written before, its time is the record's, or the
    clock's when the record has none, and its vector is not empty; the
    old collection was dropped before. *)
Theorem inserted_rows_from_backup
    (w : world) (force : option string) (fuel : nat) (r : res unit) (lg : log)
    (row : insert_row) :
  init_memory_system_cmd_impl w force fuel empty_log = (r, lg) ->
  Insert row ∈ calls lg ->
  write_backup w = Ok tt /\ drop_collection w = Ok true /\
  exists old d records rec before after,
    calls lg = (before ++ WriteBackup old d records :: DropCollection ::
                  SetupCollection d :: after)%list /\
    Insert row ∈ after /\
    rec ∈ records /\
    content_text rec = Some (row_content row) /\
    row_personality_id row = get_field (personality_id rec) "" /\
    row_session_id row = get_field (session_id rec) "" /\
    row_create_time row = get_field (create_time rec) (clock w) /\
    row_embedding row <> [].
Proof.
  intros H Hin.
  destruct (run_migrating w force fuel r lg _ H Hin eq_refl eq_refl ltac:(done))
    as (pre & qs & old & d & records & tail & r1 & rs & Hcs & _ & _ & _ & Ht & Hc).
  destruct Hc as [?|Hc]; [done|].
  pose proof (migrate_tail_calls _ _ _ _ _ _ Ht) as Htail.
  pose proof (proj1 (Forall_forall _ _) Htail _ Hc) as [?|[?|[?|(_ & Ho & Hw & Hd)]]];
    try done.
  split; [done|]. split; [done|].
  destruct Ho as (rec & Hrec & Hrow).
  apply migrate_tail_inv in Ht as [[-> _]|(_ & t & -> & Ht)];
    [by apply elem_of_nil in Hc|].
  apply elem_of_cons in Hc as [?|Hc]; [done|].
  destruct Ht as [[-> _]|(_ & es & -> & _)]; [by apply elem_of_nil in Hc|].
  apply elem_of_cons in Hc as [?|Hc]; [done|].
  exists old, d, records, rec, (pre ++ qs)%list, es.
  split; [by rewrite Hcs, <- app_assoc|]. split; [done|]. split; [done|]. exact Hrow.
Qed.

Lemma inserted_rows_from_backup_witness :
  write_backup (resized_world [greeting; blank] (Ok tt)) = Ok tt /\
  drop_collection (resized_world [greeting; blank] (Ok tt)) = Ok true /\
  exists old d records rec before after,
    calls (snd (init_memory_system_cmd_impl (resized_world [greeting; blank] (Ok tt))
                  (Some "--force") 1 empty_log)) =
      (before ++ WriteBackup old d records :: DropCollection ::
         SetupCollection d :: after)%list /\
    Insert (InsertRow (Val "p1") (Val "s1") "hello" [1%Z; 2%Z] (Val 1700000000%Z)) ∈ after /\
    rec ∈ records /\
    content_text rec = Some "hello" /\
    Val "p1" = get_field (personality_id rec) "" /\
    Val "s1" = get_field (session_id rec) "" /\
    Val 1700000000%Z =
      get_field (create_time rec) (clock (resized_world [greeting; blank] (Ok tt))) /\
    [1%Z; 2%Z] <> [].
Proof.
  rewrite resized_run.
  apply (inserted_rows_from_backup (resized_world [greeting; blank] (Ok tt))
           (Some "--force") 1 _ _
           (InsertRow (Val "p1") (Val "s1") "hello" [1%Z; 2%Z] (Val 1700000000%Z))
           resized_run).
  cbn [calls]. do 9 apply list_elem_of_further. apply list_elem_of_here.
Defined.

(** X19: a run that reaches the flush has asked one embedding for each
    backed-up record with text and for nothing else, has inserted at most
    once per embedding, and flushes once, as its last call. *)
Theorem flush_ends_full_pass
    (w : world) (force : option string) (fuel : nat) (r : res unit) (lg : log) :
  init_memory_system_cmd_impl w force fuel empty_log = (r, lg) ->
  Flush ∈ calls lg ->
  exists old d records,
    WriteBackup old d records ∈ calls lg /\
    records <> [] /\
    embed_count (calls lg) = length (List.filter has_content records) /\
    insert_count (calls lg) <= embed_count (calls lg) /\
    flush_count (calls lg) = 1 /\
    last (calls lg) = Some Flush.
Proof.
  intros H Hin.
  destruct (run_migrating w force fuel r lg _ H Hin eq_refl eq_refl ltac:(done))
    as (pre & qs & old & d & records & tail & r1 & rs & Hcs & Hpre & Hqs & _ & Ht & Hc).
  destruct Hc as [?|Hc]; [done|].
  exists old, d, records.
  split. { rewrite Hcs, !elem_of_app. right; right. apply list_elem_of_here. }
  apply migrate_tail_inv in Ht as [[-> _]|(_ & t & -> & Ht)];
    [by apply elem_of_nil in Hc|].
  apply elem_of_cons in Hc as [?|Hc]; [done|].
  destruct Ht as [[-> _]|(_ & es & -> & Ht)]; [by apply elem_of_nil in Hc|].
  apply elem_of_cons in Hc as [?|Hc]; [done|].
  destruct Ht as [->|(_ & Hne & es' & s & f & -> & Hfacts & _)];
    [by apply elem_of_nil in Hc|].
  split; [done|].
  destruct Hfacts as (Hes & _ & Hembed & Hins & _).
  assert (Forall (fun c => reembed_call c = false) (pre ++ qs)) as Hno.
  { apply Forall_app. split.
    - eapply Forall_impl; [exact Hpre|]. apply prelude_not_reembed.
    - eapply Forall_impl; [exact Hqs|]. apply export_not_reembed. }
  assert (calls lg =
          ((pre ++ qs) ++
           [WriteBackup old d records; DropCollection; SetupCollection d] ++
           es' ++ [Flush])%list) as Hcs'.
  { rewrite Hcs, <- app_assoc. reflexivity. }
  assert (embed_count (calls lg) = embed_count es') as Ee.
  { rewrite Hcs', (embed_count_app (pre ++ qs)), (embed_count_none _ Hno).
    rewrite (embed_count_app [_; _; _]), (embed_count_app es').
    unfold embed_count at 1 3. simpl. lia. }
  assert (insert_count (calls lg) = insert_count es') as Ei.
  { rewrite Hcs', (insert_count_app (pre ++ qs)), (insert_count_none _ Hno).
    rewrite (insert_count_app [_; _; _]), (insert_count_app es').
    unfold insert_count at 1 3. simpl. lia. }
  split; [by rewrite Ee|]. split; [rewrite Ee, Ei; lia|]. split.
  - rewrite Hcs', !flush_count_app.
    rewrite (flush_count_none prelude_call pre prelude_not_flush Hpre).
    rewrite (flush_count_none export_call qs export_not_flush Hqs).
    rewrite (flush_count_none reembed_call es' reembed_not_flush Hes).
    reflexivity.
  - rewrite Hcs'. rewrite !app_assoc. apply last_snoc.
Qed.

Lemma flush_ends_full_pass_witness :
  exists old d records,
    WriteBackup old d records ∈
      calls (snd (init_memory_system_cmd_impl (resized_world [greeting; blank] (Ok tt))
                    (Some "--force") 1 empty_log)) /\
    records <> [] /\
    embed_count (calls (snd (init_memory_system_cmd_impl
                               (resized_world [greeting; blank] (Ok tt))
                               (Some "--force") 1 empty_log))) =
      length (List.filter has_content records) /\
    insert_count (calls (snd (init_memory_system_cmd_impl
                                (resized_world [greeting; blank] (Ok tt))
                                (Some "--force") 1 empty_log))) <=
      embed_count (calls (snd (init_memory_system_cmd_impl
                                 (resized_world [greeting; blank] (Ok tt))
                                 (Some "--force") 1 empty_log))) /\
    flush_count (calls (snd (init_memory_system_cmd_impl
                               (resized_world [greeting; blank] (Ok tt))
                               (Some "--force") 1 empty_log))) = 1 /\
    last (calls (snd (init_memory_system_cmd_impl
                        (resized_world [greeting; blank] (Ok tt))
                        (Some "--force") 1 empty_log))) = Some Flush.
Proof.
  apply (flush_ends_full_pass (resized_world [greeting; blank] (Ok tt))
           (Some "--force") 1 (Value tt) _
           (surjective_pairing _)).
  rewrite resized_run. cbn [calls snd].
  do 10 apply list_elem_of_further. apply list_elem_of_here.
Defined.

Lemma query_calls_offsets batches : forall offset,
  query_calls offset batches =
  imap (fun k _ => Query batch_size (offset + length (concat (take k batches)))) batches.
Proof.
  induction batches as [|b rest IH]; intros offset; [done|].
  cbn [query_calls]. rewrite imap_cons. cbn [take concat length].
  rewrite Nat.add_0_r. f_equal. rewrite IH. apply imap_ext.
  intros k x _. cbn [compose take concat]. rewrite length_app. f_equal. lia.
Qed.

(** X20: an export that returns has asked, for the [k]-th page, for
    [batch_size] rows from the offset that is the number of rows fetched
    before it: no row is asked for twice and none is skipped; what it
    returns is the answers one after the other, and it yields nothing. *)
Theorem export_pages_contiguous
    (w : world) (fuel : nat) (l : log) (records : list record) (l' : log) :
  export_loop w fuel 0 0 [] l = (Value records, l') ->
  exists batches,
    (forall k b, batches !! k = Some b -> query w k = Ok b) /\
    records = concat batches /\
    calls l' =
      (calls l ++
       imap (fun k _ => Query batch_size (length (concat (take k batches)))) batches)%list /\
    replies l' = replies l.
Proof.
  intros H.
  destruct (export_loop_batches w fuel 0 0 [] l records l' H)
    as (batches & Hq & Hrec & Hcalls & Hrep & _).
  exists batches. split; [exact Hq|]. split; [exact Hrec|]. split; [|exact Hrep].
  by rewrite Hcalls, query_calls_offsets.
Qed.

Lemma export_pages_contiguous_witness :
  exists batches,
    (forall k b, batches !! k = Some b ->
       query (resized_world [greeting; blank] (Ok tt)) k = Ok b) /\
    [greeting; blank] = concat batches /\
    [Query batch_size 0] =
      ([] ++
       imap (fun k _ => Query batch_size (length (concat (take k batches)))) batches)%list /\
    [] = @nil reply.
Proof.
  apply (export_pages_contiguous (resized_world [greeting; blank] (Ok tt)) 1 empty_log
           [greeting; blank] (Log [Query batch_size 0] [])).
  vm_compute. reflexivity.
Defined.

Lemma export_loop_run w k : forall fuel n offset acc l,
  k < fuel ->
  ends_export (query w (n + k)) = true ->
  (forall j, j < k -> ends_export (query w (n + j)) = false) ->
  fst (export_loop w fuel n offset acc l) =
    match query w (n + k) with
    | Ok _ => Value (acc ++ fetched w n k)%list
    | Err => Raised
    end /\
  length (calls (snd (export_loop w fuel n offset acc l))) = length (calls l) + S k.
Proof.
  induction k as [|k IH]; intros [|fuel] n offset acc l Hk He Hbefore; try lia;
    cbn [export_loop]; unfold bind, invoke, ret.
  - unfold fetched, answer. cbn [seq map concat]. rewrite Nat.add_0_r in *.
    destruct (query w n) as [[|b batch]|]; cbn -[Z.of_nat Z.ltb length] in *.
    + rewrite !app_nil_r, length_app. done.
    + rewrite He. cbn -[Z.of_nat Z.ltb length]. rewrite !app_nil_r, length_app. done.
    + rewrite length_app. done.
  - pose proof (Hbefore 0 ltac:(lia)) as H0. rewrite Nat.add_0_r in H0.
    assert (fetched w n (S k) = (answer w n ++ fetched w (S n) k)%list) as Hf.
    { unfold fetched. change (seq 0 (S (S k))) with (0 :: seq 1 (S k)).
      cbn [map concat]. rewrite Nat.add_0_r. f_equal.
      rewrite <- seq_shift, map_map. f_equal. apply map_ext. intros j. f_equal. lia. }
    unfold answer in Hf.
    destruct (query w n) as [[|b batch]|] eqn:Hq; cbn -[Z.of_nat Z.ltb length] in *;
      [done| |done].
    rewrite H0.
    destruct (IH fuel (S n) (offset + length (b :: batch))
                ((acc ++ b :: batch)%list)
                (Log (calls l ++ [Query batch_size offset]) (replies l)))
      as (Hr & Hl).
    + lia.
    + by replace (S n + k) with (n + S k) by lia.
    + intros j Hj. replace (S n + j) with (n + S j) by lia. apply Hbefore. lia.
    + split.
      * rewrite Hr. replace (S n + k) with (n + S k) by lia.
        destruct (query w (n + S k)); [|done]. by rewrite Hf, <- app_assoc.
      * rewrite Hl. cbn [calls]. rewrite length_app. cbn [length]. lia.
Qed.

(** X21: the export ends at the first answer that is short, empty or an
    exception, when the fuel reaches that far: [k + 1] queries are made;
    a short or empty answer gives all the rows answered so far, in
    order, and an exception is raised to the caller. *)
Theorem export_stops_at_first_short_batch
    (w : world) (fuel k : nat) (l : log) :
  k < fuel ->
  ends_export (query w k) = true ->
  (forall j, j < k -> ends_export (query w j) = false) ->
  fst (export_loop w fuel 0 0 [] l) =
    match query w k with
    | Ok _ => Value (fetched w 0 k)
    | Err => Raised
    end /\
  length (calls (snd (export_loop w fuel 0 0 [] l))) = length (calls l) + S k.
Proof.
  intros Hk He Hbefore. apply (export_loop_run w k fuel 0 0 [] l Hk He Hbefore).
Qed.

Lemma export_stops_at_first_short_batch_witness :
  fst (export_loop (resized_world [greeting; blank] (Ok tt)) 1 0 0 [] empty_log) =
    Value (fetched (resized_world [greeting; blank] (Ok tt)) 0 0) /\
  length (calls (snd (export_loop (resized_world [greeting; blank] (Ok tt)) 1 0 0 []
                        empty_log))) = length (calls empty_log) + 1.
Proof.
  apply (export_stops_at_first_short_batch
           (resized_world [greeting; blank] (Ok tt)) 1 0 empty_log).
  - lia.
  - vm_compute. reflexivity.
  - intros j Hj. lia.
Defined.

End MigrationMore.

(** * The deleting commands *)

Section AdminFacts.
Import Commands Admin Cases.

(** X22: a collection is dropped only on the confirmation token, with the
    store connected, and it is the collection named in the command: the
    run makes the one drop as its last call. *)
Theorem drop_needs_confirmation
    (self : store) (name : string) (confirm : option string) (dropped : string) :
  DropCollection dropped ∈ calls (delete_collection_cmd_impl self name confirm) ->
  confirm = Some "--confirm" /\
  dropped = name /\
  milvus_manager self = true /\
  is_connected self = Ok true /\
  calls (delete_collection_cmd_impl self name confirm) =
    [IsConnected; GetSenderId; DropCollection name].
Proof.
  unfold delete_collection_cmd_impl.
  destruct (milvus_manager self); cbn [negb calls];
    [|by intros ?%elem_of_nil].
  destruct (is_connected self) as [[]|]; cbn [calls];
    try (intros Hin; apply elem_of_cons in Hin as [?|?%elem_of_nil]; done).
  destruct (bool_decide_reflect (confirm = Some "--confirm")) as [->|Hc];
    cbn [negb calls];
    [|intros Hin; apply elem_of_cons in Hin as [?|?%elem_of_nil]; done].
  destruct (get_sender_id self); cbn [calls].
  - intros Hin.
    assert (dropped = name) as ->.
    { destruct (drop_collection self name) as [[]|]; cbn [calls] in Hin;
        apply elem_of_cons in Hin as [?|Hin]; try done;
        apply elem_of_cons in Hin as [?|Hin]; try done;
        apply elem_of_cons in Hin as [E|?%elem_of_nil]; try done;
        by injection E. }
    repeat (split; [done|]).
    by destruct (drop_collection self name) as [[]|].
  - intros Hin. apply elem_of_cons in Hin as [?|Hin]; [done|].
    apply elem_of_cons in Hin as [?|?%elem_of_nil]; done.
Qed.

Lemma drop_needs_confirmation_witness :
  Some "--confirm" = Some "--confirm" /\
  "memories" = "memories" /\
  milvus_manager willing_store = true /\
  is_connected willing_store = Ok true /\
  calls (delete_collection_cmd_impl willing_store "memories" (Some "--confirm")) =
    [IsConnected; GetSenderId; DropCollection "memories"].
Proof.
  apply (drop_needs_confirmation willing_store "memories" (Some "--confirm") "memories").
  vm_compute. do 2 apply list_elem_of_further. apply list_elem_of_here.
Defined.

(** X23: the drop command answers with exactly one message, whatever the
    store does, but for an exception of the connection test, which leaves
    the command with nothing said. *)
Theorem drop_replies_once
    (self : store) (name : string) (confirm : option string) :
  length (replies (delete_collection_cmd_impl self name confirm)) =
    (if raised (delete_collection_cmd_impl self name confirm) then 0 else 1) /\
  raised (delete_collection_cmd_impl self name confirm) =
    match is_connected self with
    | Err => milvus_manager self
    | Ok _ => false
    end.
Proof.
  unfold delete_collection_cmd_impl.
  destruct (milvus_manager self); cbn [negb];
    [|by destruct (is_connected self)].
  destruct (is_connected self) as [[]|]; try done.
  destruct (bool_decide (confirm = Some "--confirm")); cbn [negb]; [|done].
  destruct (get_sender_id self); [|done].
  by destruct (drop_collection self name) as [[]|].
Qed.

(** X24: the drop command says that the collection is deleted only after
    a drop that returned a true value; the message names the collection
    of the command and tells whether it is the one the plugin uses. *)
Theorem drop_done_after_drop
    (self : store) (name : string) (confirm : option string)
    (said : string) (current : bool) :
  DropDone said current ∈ replies (delete_collection_cmd_impl self name confirm) ->
  drop_collection self name = Ok true /\
  said = name /\
  current = bool_decide (name = collection_name self) /\
  last (calls (delete_collection_cmd_impl self name confirm)) =
    Some (DropCollection name).
Proof.
  unfold delete_collection_cmd_impl.
  destruct (milvus_manager self); cbn [negb replies];
    [|intros Hin; apply elem_of_cons in Hin as [?|?%elem_of_nil]; done].
  destruct (is_connected self) as [[]|]; cbn [replies];
    try (intros Hin; apply elem_of_cons in Hin as [?|?%elem_of_nil]; done);
    try (by intros ?%elem_of_nil).
  destruct (bool_decide (confirm = Some "--confirm")); cbn [negb replies];
    [|intros Hin; apply elem_of_cons in Hin as [?|?%elem_of_nil]; done].
  destruct (get_sender_id self); cbn [replies];
    [|intros Hin; apply elem_of_cons in Hin as [?|?%elem_of_nil]; done].
  destruct (drop_collection self name) as [[]|]; cbn [replies calls];
    intros Hin; apply elem_of_cons in Hin as [E|?%elem_of_nil]; try done.
  injection E as -> ->. repeat split.
  destruct (String.eqb_spec name (collection_name self)) as [E|E].
  - by rewrite bool_decide_eq_true_2.
  - by rewrite bool_decide_eq_false_2.
Qed.

Lemma drop_done_after_drop_witness :
  drop_collection willing_store "memories" = Ok true /\
  "memories" = "memories" /\
  true = bool_decide ("memories" = collection_name willing_store) /\
  last (calls (delete_collection_cmd_impl willing_store "memories" (Some "--confirm"))) =
    Some (DropCollection "memories").
Proof.
  apply (drop_done_after_drop willing_store "memories" (Some "--confirm") "memories" true).
  vm_compute. apply list_elem_of_here.
Defined.

Section Session.

Variable strip : string -> string.
Variable validate_session_id : string -> outcome bool.
Variable safe_build_milvus_expression : string -> string -> string -> built.

Local Abbreviation run :=
  (delete_session_memory_cmd_impl strip validate_session_id safe_build_milvus_expression).

(** The id that the command works on *)
Local Abbreviation cleaned session_id := (strip_chars quote_chars (strip session_id)).

(** The paths of the command, by what the run leaves. *)
Lemma delete_session_paths self session_id confirm :
  (calls (run self session_id confirm) = [] \/
   calls (run self session_id confirm) = [IsConnected] \/
   calls (run self session_id confirm) = [IsConnected; GetSenderId]) \/
  (confirm = Some "--confirm" /\
   milvus_manager self = true /\ is_connected self = Ok true /\
   session_id <> "" /\ strip session_id <> "" /\
   validate_session_id (cleaned session_id) = Ok true /\
   exists expr,
     safe_build_milvus_expression "session_id" (cleaned session_id) "==" = Built expr /\
     ((calls (run self session_id confirm) =
         [IsConnected; GetSenderId; Delete (collection_name self) expr] /\
       delete self (collection_name self) expr <> Ok true /\
       forall sid, DeleteDone sid ∉ replies (run self session_id confirm)) \/
      (calls (run self session_id confirm) =
         [IsConnected; GetSenderId; Delete (collection_name self) expr;
          Flush (collection_name self)] /\
       delete self (collection_name self) expr = Ok true /\
       replies (run self session_id confirm) =
         [match flush self (collection_name self) with
          | Ok _ => DeleteDone (cleaned session_id)
          | Err => FlushFailed
          end]))).
Proof.
  unfold delete_session_memory_cmd_impl.
  destruct (milvus_manager self); cbn [negb]; [|by left; left].
  destruct (is_connected self) as [[]|]; try (by left; right; left).
  destruct (String.eqb_spec session_id "") as [?|Hs];
    cbn [orb]; [by left; right; left|].
  destruct (String.eqb_spec (strip session_id) "") as [?|Hs'];
    [by left; right; left|].
  destruct (validate_session_id (cleaned session_id)) as [[]|];
    try (by left; right; left).
  destruct (bool_decide_reflect (confirm = Some "--confirm")) as [->|?];
    cbn [negb]; [|by left; right; left].
  destruct (safe_build_milvus_expression "session_id" (cleaned session_id) "==")
    as [expr| |]; try (by left; right; left).
  destruct (get_sender_id self); [|by left; right; right].
  right. repeat (split; [done|]). exists expr. split; [done|].
  destruct (delete self (collection_name self) expr) as [[]|]; cbn [calls replies app].
  - right. by destruct (flush self (collection_name self)).
  - left. split; [done|]. split; [done|]. intros sid Hin.
    apply elem_of_cons in Hin as [?|?%elem_of_nil]; done.
  - left. split; [done|]. split; [done|]. intros sid Hin.
    apply elem_of_cons in Hin as [?|?%elem_of_nil]; done.
Qed.

End Session.

(** X25: memories are deleted only on the confirmation token, for an id
    that is not blank and that the validator accepts, in the plugin's own
    collection, and by the expression built from the cleaned id; the
    delete is the only writing call before a flush. *)
Theorem delete_needs_confirmation
    (strip : string -> string) (validate_session_id : string -> outcome bool)
    (safe_build_milvus_expression : string -> string -> string -> built)
    (self : store) (session_id : string) (confirm : option string)
    (collection expression : string) :
  Delete collection expression ∈
    calls (delete_session_memory_cmd_impl strip validate_session_id
             safe_build_milvus_expression self session_id confirm) ->
  confirm = Some "--confirm" /\
  is_connected self = Ok true /\
  session_id <> "" /\ strip session_id <> "" /\
  validate_session_id (strip_chars quote_chars (strip session_id)) = Ok true /\
  safe_build_milvus_expression "session_id"
    (strip_chars quote_chars (strip session_id)) "==" = Built expression /\
  collection = collection_name self /\
  take 3 (calls (delete_session_memory_cmd_impl strip validate_session_id
                   safe_build_milvus_expression self session_id confirm)) =
    [IsConnected; GetSenderId; Delete collection expression].
Proof.
  intros Hin.
  destruct (delete_session_paths strip validate_session_id safe_build_milvus_expression
              self session_id confirm)
    as [[E|[E|E]]|(Hc & _ & Hconn & Hs & Hs' & Hv & expr & Hb & H)].
  - rewrite E in Hin. by apply elem_of_nil in Hin.
  - rewrite E in Hin. apply elem_of_cons in Hin as [?|?%elem_of_nil]; done.
  - rewrite E in Hin. apply elem_of_cons in Hin as [?|Hin]; [done|].
    apply elem_of_cons in Hin as [?|?%elem_of_nil]; done.
  - assert (Delete collection expression = Delete (collection_name self) expr) as E.
    { destruct H as [(E & _)|(E & _)]; rewrite E in Hin;
        apply elem_of_cons in Hin as [?|Hin]; try done;
        apply elem_of_cons in Hin as [?|Hin]; try done;
        apply elem_of_cons in Hin as [?|Hin]; try done.
      - by apply elem_of_nil in Hin.
      - apply elem_of_cons in Hin as [?|?%elem_of_nil]; done. }
    injection E as -> ->. repeat (split; [done|]).
    by destruct H as [(-> & _)|(-> & _)].
Qed.

Lemma delete_needs_confirmation_witness :
  Some "--confirm" = Some "--confirm" /\
  is_connected willing_store = Ok true /\
  "`s1`" <> "" /\ (fun s : string => s) "`s1`" <> "" /\
  accept_all (strip_chars quote_chars ((fun s : string => s) "`s1`")) = Ok true /\
  quoting_builder "session_id"
    (strip_chars quote_chars ((fun s : string => s) "`s1`")) "==" =
    Built "session_id == 's1'" /\
  "memories" = collection_name willing_store /\
  take 3 (calls (delete_session_memory_cmd_impl (fun s => s) accept_all quoting_builder
                   willing_store "`s1`" (Some "--confirm"))) =
    [IsConnected; GetSenderId; Delete "memories" "session_id == 's1'"].
Proof.
  apply (delete_needs_confirmation (fun s => s) accept_all quoting_builder
           willing_store "`s1`" (Some "--confirm") "memories" "session_id == 's1'").
  vm_compute. do 2 apply list_elem_of_further. apply list_elem_of_here.
Defined.

(** X26: the collection is flushed only right after a delete that
    returned a true value, once, as the last call; and the command says
    that the memories are deleted only when that flush went through,
    naming the cleaned id. *)
Theorem flush_follows_delete
    (strip : string -> string) (validate_session_id : string -> outcome bool)
    (safe_build_milvus_expression : string -> string -> string -> built)
    (self : store) (session_id : string) (confirm : option string)
    (collection : string) :
  Flush collection ∈
    calls (delete_session_memory_cmd_impl strip validate_session_id
             safe_build_milvus_expression self session_id confirm) ->
  collection = collection_name self /\
  exists expr,
    delete self collection expr = Ok true /\
    calls (delete_session_memory_cmd_impl strip validate_session_id
             safe_build_milvus_expression self session_id confirm) =
      [IsConnected; GetSenderId; Delete collection expr; Flush collection] /\
    replies (delete_session_memory_cmd_impl strip validate_session_id
               safe_build_milvus_expression self session_id confirm) =
      [match flush self collection with
       | Ok _ => DeleteDone (strip_chars quote_chars (strip session_id))
       | Err => FlushFailed
       end].
Proof.
  intros Hin.
  destruct (delete_session_paths strip validate_session_id safe_build_milvus_expression
              self session_id confirm)
    as [[E|[E|E]]|(_ & _ & _ & _ & _ & _ & expr & _ & [(E & _)|(E & Hd & Hr)])];
    rewrite E in Hin.
  - by apply elem_of_nil in Hin.
  - apply elem_of_cons in Hin as [?|?%elem_of_nil]; done.
  - apply elem_of_cons in Hin as [?|Hin]; [done|].
    apply elem_of_cons in Hin as [?|?%elem_of_nil]; done.
  - apply elem_of_cons in Hin as [?|Hin]; [done|].
    apply elem_of_cons in Hin as [?|Hin]; [done|].
    apply elem_of_cons in Hin as [?|?%elem_of_nil]; done.
  - apply elem_of_cons in Hin as [?|Hin]; [done|].
    apply elem_of_cons in Hin as [?|Hin]; [done|].
    apply elem_of_cons in Hin as [?|Hin]; [done|].
    apply elem_of_cons in Hin as [Ef|?%elem_of_nil]; [|done].
    injection Ef as ->. split; [done|]. by exists expr.
Qed.

Lemma flush_follows_delete_witness :
  "memories" = collection_name willing_store /\
  exists expr,
    delete willing_store "memories" expr = Ok true /\
    calls (delete_session_memory_cmd_impl (fun s => s) accept_all quoting_builder
             willing_store "`s1`" (Some "--confirm")) =
      [IsConnected; GetSenderId; Delete "memories" expr; Flush "memories"] /\
    replies (delete_session_memory_cmd_impl (fun s => s) accept_all quoting_builder
               willing_store "`s1`" (Some "--confirm")) =
      [match flush willing_store "memories" with
       | Ok _ => DeleteDone (strip_chars quote_chars ((fun s : string => s) "`s1`"))
       | Err => FlushFailed
       end].
Proof.
  apply (flush_follows_delete (fun s => s) accept_all quoting_builder
           willing_store "`s1`" (Some "--confirm") "memories").
  vm_compute. do 3 apply list_elem_of_further. apply list_elem_of_here.
Defined.

(** X27: the session command answers with exactly one message, but when
    the connection test or the validator raises: the exception leaves the
    command with nothing said and nothing called but the connection
    test. *)
Theorem delete_replies_once
    (strip : string -> string) (validate_session_id : string -> outcome bool)
    (safe_build_milvus_expression : string -> string -> string -> built)
    (self : store) (session_id : string) (confirm : option string) :
  (raised (delete_session_memory_cmd_impl strip validate_session_id
             safe_build_milvus_expression self session_id confirm) = false /\
   length (replies (delete_session_memory_cmd_impl strip validate_session_id
                      safe_build_milvus_expression self session_id confirm)) = 1) \/
  (raised (delete_session_memory_cmd_impl strip validate_session_id
             safe_build_milvus_expression self session_id confirm) = true /\
   replies (delete_session_memory_cmd_impl strip validate_session_id
              safe_build_milvus_expression self session_id confirm) = [] /\
   calls (delete_session_memory_cmd_impl strip validate_session_id
            safe_build_milvus_expression self session_id confirm) = [IsConnected] /\
   (is_connected self = Err \/
    validate_session_id (strip_chars quote_chars (strip session_id)) = Err)).
Proof.
  unfold delete_session_memory_cmd_impl.
  destruct (milvus_manager self); cbn [negb]; [|by left].
  destruct (is_connected self) as [[]|]; [|by left|by right; repeat split; left].
  destruct (String.eqb session_id "" || String.eqb (strip session_id) "");
    [by left|].
  destruct (validate_session_id _) as [[]|]; [|by left|by right; repeat split; right].
  destruct (bool_decide (confirm = Some "--confirm")); cbn [negb]; [|by left].
  destruct (safe_build_milvus_expression _ _ _); try (by left).
  destruct (get_sender_id self); [|by left].
  destruct (delete self _ _) as [[]|]; try (by left).
  destruct (flush self _); by left.
Qed.

End AdminFacts.
